(** * HEOS queue manager: service calls over a set of media players

    A shallow embedding of [custom_components/heos_queue_mgr/__init__.py]:
    the four service classes ([ClearQueue], [ClearQueueExceptNowPlaying],
    [GetQueue], [RemoveFromQueue]) and the dispatcher [async_exec_command].

    The Python code is [async], but every [await] is sequential: there is no
    [gather] and no task is spawned, so the program is a sequential
    state-and-exception computation over
      - the HEOS connection (an external party that answers each command),
      - the logger,
      - the mutable locals a handler closes over ([queues], [errors]). *)

From stdpp Require Import gmap strings list fin_maps pretty.
From Stdlib Require Import ZArith Ascii.

Local Open Scope Z_scope.

(** ** Data *)

(** Python exceptions: [pyheos.HeosError], which the handlers catch, and any
    other exception class, which they do not. *)
Inductive Exn :=
  | HeosError (msg : string)
  | PyError (cls : string).

Definition is_heos_error (e : Exn) : bool :=
  match e with HeosError _ => true | PyError _ => false end.

(** [QueuedItemDict] and [NowPlayingDict]. *)
Record QueuedItemDict := { qid : Z }.

Inductive MediaType := song | station.

Record NowPlayingDict := { type : MediaType; np_qid : Z }.

(** The payload of a HEOS response, as far as this module looks into it. *)
Inductive Payload :=
  | PNone
  | PQueue (items : list QueuedItemDict)
  | PNowPlaying (now : NowPlayingDict).

Record HeosResponse := { result : bool; payload : Payload }.

(** A [HeosConnection] object, by identity. *)
Definition HeosConnection := nat.

(** The values of the parameter dict passed to [connection.command]. *)
Inductive ParamValue :=
  | PInt (z : Z)
  | PStr (s : string).

Global Instance ParamValue_eq_dec : EqDecision ParamValue.
Proof. solve_decision. Defined.

(** One [connection.command(command, params)]. *)
Record Call := {
  call_connection : HeosConnection;
  call_command : string;
  call_params : list (string * ParamValue)
}.

(** What the connection does with a command: it returns a response or raises. *)
Inductive Reply :=
  | Returns (response : HeosResponse)
  | Raises (e : Exn).

(** The HEOS side is external.  It is a function of everything that was sent
    so far (with the answers given) and of the command at hand. *)
Definition Env := list (Call * Reply) → Call → Reply.

(** [HeosPlayer] with the two private fields the dispatcher reads:
    [_player_id] and [_heos._connection]. *)
Record HeosPlayer := { player_id : Z; heos_connection : HeosConnection }.

(** Home Assistant entities: [isinstance(entity, HeosMediaPlayer)] is the
    constructor test. *)
Inductive Entity :=
  | HeosMediaPlayer (id : string) (player : HeosPlayer)
  | OtherEntity (id : string).

Definition entity_id (e : Entity) : string :=
  match e with HeosMediaPlayer i _ => i | OtherEntity i => i end.

Global Instance HeosPlayer_eq_dec : EqDecision HeosPlayer.
Proof. solve_decision. Defined.

Global Instance Entity_eq_dec : EqDecision Entity.
Proof. solve_decision. Defined.

Global Instance Entity_countable : Countable Entity.
Proof.
  refine (inj_countable'
    (λ e, match e with
          | HeosMediaPlayer i p => inl (i, player_id p, heos_connection p)
          | OtherEntity i => inr i
          end)
    (λ x, match x with
          | inl (i, p, c) =>
              HeosMediaPlayer i {| player_id := p; heos_connection := c |}
          | inr i => OtherEntity i
          end) _).
  by intros [i []|i].
Defined.

(** [ServiceCall]: the service data (only [queue_id] is read), the
    [return_response] flag, and the target selector, which only the host's
    extraction looks at. *)
Record ServiceCall := {
  target : list string;
  data : gmap string Z;
  return_response : bool
}.

(** An [EntityPlatform] of the host, with its method
    [async_extract_from_service]. *)
Record EntityPlatform := {
  platform_name : string;
  async_extract_from_service : ServiceCall → list Entity
}.

Record HomeAssistant := { platforms : list EntityPlatform }.

(** [entity_platform.async_get_platforms(hass, integration_name)]. *)
Definition async_get_platforms (hass : HomeAssistant) (name : string)
  : list EntityPlatform :=
  filter (λ ep, platform_name ep = name) (platforms hass).

(** The JSON dict a service returns; [None] is no response. *)
Inductive ResponseValue :=
  | VInt (n : nat)
  | VQueues (q : gmap string Payload)
  | VErrors (ids : list string).

Definition ServiceResponse := option (list (string * ResponseValue)).

(** ** Logging *)

Inductive Level := DEBUG | WARNING | ERROR.

Inductive LogArg :=
  | AStr (s : string)
  | AInt (z : Z)
  | ACall (c : ServiceCall)
  | AEntities (es : gset Entity).

(** One record handed to [_LOGGER]; [_LOGGER.exception] logs at [ERROR] with
    the exception attached. *)
Record LogRecord := {
  levelname : Level;
  msg : string;
  args : list LogArg;
  exc_info : option Exn
}.

(** ** State and exceptions *)

(** [L] is the type of the locals the running closure can mutate. *)
Record State (L : Type) := {
  history : list (Call * Reply);
  logs : list LogRecord;
  locals : L
}.
Arguments history {L} _.
Arguments logs {L} _.
Arguments locals {L} _.

Definition set_locals {L L'} (l : L') (st : State L) : State L' :=
  {| history := history st; logs := logs st; locals := l |}.

Inductive Outcome (A : Type) :=
  | Ok (a : A)
  | Raise (e : Exn).
Arguments Ok {A} a.
Arguments Raise {A} e.

Definition M (L A : Type) : Type := State L → Outcome A * State L.

Definition ret {L A} (a : A) : M L A := λ st, (Ok a, st).

Definition bind {L A B} (m : M L A) (k : A → M L B) : M L B :=
  λ st, match m st with
        | (Ok a, st') => k a st'
        | (Raise e, st') => (Raise e, st')
        end.

Declare Scope py_scope.
Delimit Scope py_scope with py.
Notation "x <- m ;; k" := (bind m (λ x, k))
  (at level 100, m at next level, right associativity) : py_scope.
Notation "m ;;; k" := (bind m (λ _, k))
  (at level 100, right associativity) : py_scope.
Local Open Scope py_scope.

(** [try: body  except HeosError as e: handler(e)]: any other exception
    passes through. *)
Definition try_except_HeosError {L A} (body : M L A) (handler : Exn → M L A)
  : M L A :=
  λ st, match body st with
        | (Raise (HeosError m), st') => handler (HeosError m) st'
        | r => r
        end.

Definition get_locals {L} : M L L := λ st, (Ok (locals st), st).

Definition modify_locals {L} (f : L → L) : M L unit :=
  λ st, (Ok tt, set_locals (f (locals st)) st).

(** Run a body that owns fresh locals, as a function call does. *)
Definition with_locals {L A} (init : L) (body : M L A) : M unit A :=
  λ st, let '(o, st') := body (set_locals init st) in (o, set_locals tt st').

Definition log {L} (lvl : Level) (m : string) (a : list LogArg)
    (exc : option Exn) : M L unit :=
  λ st, (Ok tt,
         {| history := history st;
            logs := logs st ++ [{| levelname := lvl; msg := m; args := a;
                                   exc_info := exc |}];
            locals := locals st |}).

Definition debug {L} m a : M L unit := log DEBUG m a None.
Definition warning {L} m a : M L unit := log WARNING m a None.
Definition error {L} m a : M L unit := log ERROR m a None.
Definition exception {L} m a (e : Exn) : M L unit := log ERROR m a (Some e).

(** [await connection.command(command, params)]. *)
Definition command {L} (env : Env) (connection : HeosConnection)
    (name : string) (params : list (string * ParamValue)) : M L HeosResponse :=
  λ st,
    let c := {| call_connection := connection; call_command := name;
                call_params := params |} in
    let r := env (history st) c in
    (match r with Returns resp => Ok resp | Raises e => Raise e end,
     {| history := history st ++ [(c, r)]; logs := logs st;
        locals := locals st |}).

(** ** The dispatcher *)

Definition ConnectionCallback (L : Type) : Type :=
  string → Z → HeosConnection → M L unit.

(** [for x in xs: body(x)]. *)
Fixpoint for_each {L A} (xs : list A) (body : A → M L unit) : M L unit :=
  match xs with
  | [] => ret tt
  | x :: xs' => body x ;;; for_each xs' body
  end.

(** The set comprehension [{e for l in entity_list for e in l}]. *)
Definition entity_set (entity_list : list (list Entity)) : gset Entity :=
  list_to_set (concat entity_list).

(** The entities of the service call: one extraction per [heos] platform. *)
Definition extract_entities (hass : HomeAssistant) (service_call : ServiceCall)
  : list (list Entity) :=
  map (λ ep, async_extract_from_service ep service_call)
      (async_get_platforms hass "heos").

(** The loop body of [async_exec_command]. *)
Definition exec_entity {L} (connection_callback : ConnectionCallback L)
    (entity : Entity) : M L unit :=
  match entity with
  | OtherEntity i =>
      warning "Skipping non HEOS media player: %s" [AStr i]
  | HeosMediaPlayer i player =>
      connection_callback i (player_id player) (heos_connection player)
  end.

(** [async_exec_command].  A Python set is iterated in an order the language
    leaves open; [elements] is one such order, and the theorems below use no
    more of it than that every element comes once.  In Python the order may
    also depend on how the set was built, so the loop orders of two calls are
    compared up to a permutation only. *)
Definition async_exec_command {L} (hass : HomeAssistant)
    (service_call : ServiceCall) (connection_callback : ConnectionCallback L)
  : M L unit :=
  let entity_list := extract_entities hass service_call in
  let entities := entity_set entity_list in
  debug "operating on entities: %s" [AEntities entities] ;;;
  for_each (elements entities) (exec_entity connection_callback).

(** ** Python operations on a payload

    The source casts [response.payload] to a [TypedDict] shape without a check;
    a payload of another shape fails where Python fails on it. *)

Definition lift {L A} (r : Exn + A) : M L A :=
  λ st, (match r with inl e => Raise e | inr a => Ok a end, st).

(** [len(queued_entries)]: a dict has as many entries as keys. *)
Definition py_len (p : Payload) : Exn + nat :=
  match p with
  | PNone => inl (PyError "TypeError")
  | PQueue items => inr (length items)
  | PNowPlaying _ => inr 2%nat
  end.

(** [now_playing["qid"]]. *)
Definition py_getitem_qid (p : Payload) : Exn + Z :=
  match p with
  | PNowPlaying now => inr (np_qid now)
  | PNone | PQueue _ => inl (PyError "TypeError")
  end.

(** [str(i)] of an [int]. *)
Definition str (z : Z) : string := pretty z.

(** [",".join(map(lambda i: str(i["qid"]),
                  filter(lambda i: i["qid"] != playing_qid, queued_entries)))]:
    iterating a dict yields its keys, strings, on which [i["qid"]] fails. *)
Definition join_qids_to_remove (p : Payload) (playing_qid : Z) : Exn + string :=
  match p with
  | PQueue queued_entries =>
      inr (String.concat ","
             (map (λ i, str (qid i))
                  (filter (λ i, qid i ≠ playing_qid) queued_entries)))
  | PNone | PNowPlaying _ => inl (PyError "TypeError")
  end.

Inductive SupportsResponse := NONE | ONLY | OPTIONAL.

(** ** The services *)

Module ClearQueue.
Definition name : string := "clear_queue".
Definition supports_response := NONE.

Definition handler {L} (env : Env) : ConnectionCallback L :=
  λ entity_id pid connection,
    try_except_HeosError
      (command env connection "player/clear_queue" [("pid", PInt pid)] ;;;
       ret tt)
      (λ e, exception "%s: error when clearing queue for %s"
              [AStr name; AStr entity_id] e).

Definition callback (env : Env) (hass : HomeAssistant)
    (service_call : ServiceCall) : M unit ServiceResponse :=
  debug "%s service call: %s" [AStr name; ACall service_call] ;;;
  async_exec_command hass service_call (handler env) ;;;
  ret None.
End ClearQueue.

Module ClearQueueExceptNowPlaying.
Definition name : string := "clear_queue_except_now_playing".
Definition supports_response := NONE.

Definition handler {L} (env : Env) : ConnectionCallback L :=
  λ entity_id pid connection,
    fetched <-
      try_except_HeosError
        (response <- command env connection "player/get_queue"
                       [("pid", PInt pid)] ;;
         if negb (result response)
         then warning "%s: player/get_queue failed for player %s"
                [AStr name; AStr entity_id] ;;; ret None
         else ret (Some response))
        (λ e, exception "%s: error with player/get_queue for %s"
                [AStr name; AStr entity_id] e ;;; ret None) ;;
    match fetched with
    | None => ret tt
    | Some response =>
      let queued_entries := payload response in
      n <- lift (py_len queued_entries) ;;
      if (n <=? 1)%nat
      then debug "%s: queue is sized correctly for player %s"
             [AStr name; AStr entity_id]
      else
        fetched <-
          try_except_HeosError
            (response <- command env connection
                           "player/get_now_playing_media"
                           [("pid", PInt pid)] ;;
             if negb (result response)
             then warning
                    "%s: player/get_now_playing_media failed for player %s"
                    [AStr name; AStr entity_id] ;;; ret None
             else ret (Some (payload response)))
            (λ e, exception
                    "%s: error with player/get_now_playing_media for player %s"
                    [AStr name; AStr entity_id] e ;;; ret None) ;;
        match fetched with
        | None => ret tt
        | Some now_playing =>
          playing_qid <- lift (py_getitem_qid now_playing) ;;
          debug "%s: now playing queue id %d for player %s"
            [AStr name; AInt playing_qid; AStr entity_id] ;;;
          qids_to_remove <-
            lift (join_qids_to_remove queued_entries playing_qid) ;;
          debug "%s: removing queue items %s from player %s"
            [AStr name; AStr qids_to_remove; AStr entity_id] ;;;
          try_except_HeosError
            (command env connection "player/remove_from_queue"
               [("pid", PInt pid); ("qid", PStr qids_to_remove)] ;;;
             ret tt)
            (λ _, ret tt) ;;;
          fetched <-
            try_except_HeosError
              (response <- command env connection
                             "player/get_now_playing_media"
                             [("pid", PInt pid)] ;;
               if negb (result response)
               then warning
                      "%s: unable to get now playing after queue maintenance for player %s"
                      [AStr name; AStr entity_id] ;;; ret None
               else ret (Some (payload response)))
              (λ e, exception
                      "%s: error with player/get_now_playing_media for player %s after queue maintenance"
                      [AStr name; AStr entity_id] e ;;; ret None) ;;
          match fetched with
          | None => ret tt
          | Some now_playing =>
            playing_qid <- lift (py_getitem_qid now_playing) ;;
            debug
              "%s: now playing qid %d for player %s after queue maintenance"
              [AStr name; AInt playing_qid; AStr entity_id] ;;;
            if bool_decide (playing_qid ≠ 1)
            then error
                   "%s: playing qid is not '1' after queue maintenance for player %s"
                   [AStr name; AStr entity_id]
            else ret tt
          end
        end
    end.

Definition callback (env : Env) (hass : HomeAssistant)
    (service_call : ServiceCall) : M unit ServiceResponse :=
  debug "%s service call: %s" [AStr name; ACall service_call] ;;;
  async_exec_command hass service_call (handler env) ;;;
  ret None.
End ClearQueueExceptNowPlaying.

Module GetQueue.
Definition name : string := "get_queue".
Definition supports_response := ONLY.

(** The locals of [callback] that [handler] closes over. *)
Record Locals := {
  queues : gmap string Payload;
  errors : list string
}.

Definition handler (env : Env) : ConnectionCallback Locals :=
  λ entity_id pid connection,
    try_except_HeosError
      (items <- command env connection "player/get_queue"
                  [("pid", PInt pid)] ;;
       if result items
       then modify_locals
              (λ l, {| queues := <[entity_id := payload items]> (queues l);
                       errors := errors l |})
       else ret tt)
      (λ e, exception "%s: error getting queue from %s"
              [AStr name; AStr entity_id] e ;;;
            modify_locals
              (λ l, {| queues := queues l;
                       errors := errors l ++ [entity_id] |})).

Definition callback (env : Env) (hass : HomeAssistant)
    (service_call : ServiceCall) : M unit ServiceResponse :=
  debug "%s service call: %s" [AStr name; ACall service_call] ;;;
  with_locals {| queues := ∅; errors := [] |}
    (async_exec_command hass service_call (handler env) ;;;
     l <- get_locals ;;
     ret (Some [("count", VInt (size (queues l)));
                ("queues", VQueues (queues l));
                ("errors", VErrors (errors l))])).
End GetQueue.

Module RemoveFromQueue.
Definition name : string := "remove_from_queue".
Definition supports_response := OPTIONAL.

(** The local [errors] is the state [handler] closes over. *)
Definition handler (env : Env) (qid : Z) : ConnectionCallback (list string) :=
  λ entity_id pid connection,
    try_except_HeosError
      (command env connection "player/remove_from_queue"
         [("pid", PInt pid); ("qid", PInt qid)] ;;;
       ret tt)
      (λ e, exception "%s: error removing %d from queue for player %s"
              [AStr name; AInt qid; AStr entity_id] e ;;;
            modify_locals (λ errors, errors ++ [entity_id])).

Definition callback (env : Env) (hass : HomeAssistant)
    (service_call : ServiceCall) : M unit ServiceResponse :=
  debug "%s service call: %s" [AStr name; ACall service_call] ;;;
  match data service_call !! "queue_id" with
  | None =>
      error "%s: missing queue_id in service data" [AStr name] ;;;
      ret None
  | Some qid =>
      with_locals []
        (async_exec_command hass service_call (handler env qid) ;;;
         errors <- get_locals ;;
         if return_response service_call
         then ret (Some [("errors", VErrors errors)])
         else ret None)
  end.
End RemoveFromQueue.

(** ** Targets, outcomes and what a run is observed by *)

(** What the callback is called with: [entity_id], [_player_id] and the
    connection. *)
Definition Target : Type := string * Z * HeosConnection.

Definition target_id (t : Target) : string := t.1.1.

Definition heos_targets (es : list Entity) : list Target :=
  omap (λ e, match e with
             | HeosMediaPlayer i p => Some (i, player_id p, heos_connection p)
             | OtherEntity _ => None
             end) es.

(** The targets of a service call, in the order the loop visits them. *)
Definition resolved_targets (hass : HomeAssistant) (service_call : ServiceCall)
  : list Target :=
  heos_targets (elements (entity_set (extract_entities hass service_call))).

(** A callback wrapped so that each invocation is written down next to the
    callback's own locals; the callback itself runs unchanged. *)
Definition recording {L} (cb : ConnectionCallback L)
  : ConnectionCallback (list Target * L) :=
  λ entity_id pid connection st,
    let '(o, st') := cb entity_id pid connection (set_locals (locals st).2 st) in
    (o, set_locals ((locals st).1 ++ [(entity_id, pid, connection)], locals st')
          st').

(** The invocations written down by a run of [async_exec_command]. *)
Definition invocations {L} (hass : HomeAssistant) (service_call : ServiceCall)
    (cb : ConnectionCallback L) (st : State L) : list Target :=
  (locals (async_exec_command hass service_call (recording cb)
             (set_locals ([], locals st) st)).2).1.

(** The outcome of the dispatch itself. *)
Definition dispatch_outcome {L} (hass : HomeAssistant)
    (service_call : ServiceCall) (cb : ConnectionCallback L) (st : State L)
  : Outcome unit :=
  (async_exec_command hass service_call cb st).1.

(** A callback that returns normally whatever it is called with. *)
Definition never_raises {L} (cb : ConnectionCallback L) : Prop :=
  ∀ entity_id pid connection st, (cb entity_id pid connection st).1 = Ok tt.

(** The channel contract of [pyheos]: a command fails with [HeosError]. *)
Definition raises_only_HeosError (env : Env) : Prop :=
  ∀ h c e, env h c = Raises e → is_heos_error e = true.

(** The protocol's payload shapes, as the [TypedDict] casts take them. *)
Definition typed_payloads (env : Env) : Prop :=
  ∀ h c r, env h c = Returns r → result r = true →
    (call_command c = "player/get_queue" → ∃ q, payload r = PQueue q) ∧
    (call_command c = "player/get_now_playing_media" →
       ∃ now, payload r = PNowPlaying now).

(** When every target is sent exactly one command, built by [mk], the replies
    the targets get one after the other, from history [h] on. *)
Fixpoint device_outcomes (env : Env) (mk : Target → Call)
    (h : list (Call * Reply)) (ts : list Target) : list (Target * Reply) :=
  match ts with
  | [] => []
  | t :: ts' =>
      let r := env h (mk t) in
      (t, r) :: device_outcomes env mk (h ++ [(mk t, r)]) ts'
  end.

Definition raised (o : Target * Reply) : bool :=
  match o.2 with Raises _ => true | Returns _ => false end.

Definition unsuccessful (o : Target * Reply) : bool :=
  match o.2 with Returns r => negb (result r) | Raises _ => false end.

Definition successful (o : Target * Reply) : bool :=
  match o.2 with Returns r => result r | Raises _ => false end.

Definition get_queue_call (t : Target) : Call :=
  {| call_connection := t.2; call_command := "player/get_queue";
     call_params := [("pid", PInt t.1.2)] |}.

Definition get_now_playing_call (t : Target) : Call :=
  {| call_connection := t.2; call_command := "player/get_now_playing_media";
     call_params := [("pid", PInt t.1.2)] |}.

Definition clear_queue_call (t : Target) : Call :=
  {| call_connection := t.2; call_command := "player/clear_queue";
     call_params := [("pid", PInt t.1.2)] |}.

Definition remove_call (q : ParamValue) (t : Target) : Call :=
  {| call_connection := t.2; call_command := "player/remove_from_queue";
     call_params := [("pid", PInt t.1.2); ("qid", q)] |}.

(** ** What the handlers do to their locals, and joined strings *)

(** The effect of one reply on the locals of [GetQueue.callback]. *)
Definition GetQueue_upd (t : Target) (r : Reply) (l : GetQueue.Locals)
  : GetQueue.Locals :=
  match r with
  | Returns items =>
      if result items
      then {| GetQueue.queues := <[target_id t := payload items]> (GetQueue.queues l);
              GetQueue.errors := GetQueue.errors l |}
      else l
  | Raises _ =>
      {| GetQueue.queues := GetQueue.queues l;
         GetQueue.errors := GetQueue.errors l ++ [target_id t] |}
  end.

(** The effect of one reply on [errors] in [RemoveFromQueue.callback]. *)
Definition RemoveFromQueue_upd (t : Target) (r : Reply) (errors : list string)
  : list string :=
  match r with
  | Returns _ => errors
  | Raises _ => errors ++ [target_id t]
  end.

Definition outcome_id (o : Target * Reply) : string := target_id o.1.

(** No comma occurs in the string. *)
Fixpoint comma_free (s : string) : Prop :=
  match s with
  | EmptyString => True
  | String a s' => a ≠ ","%char ∧ comma_free s'
  end.

(** What follows an element in a joined string: nothing, or a comma. *)
Definition comma_tail (s : string) : Prop :=
  s = EmptyString ∨ ∃ s', s = String ","%char s'.

(** ** Example hosts and channels *)

Definition kitchen : Entity :=
  HeosMediaPlayer "media_player.kitchen"
    {| player_id := 1; heos_connection := 0%nat |}.

Definition den : Entity :=
  HeosMediaPlayer "media_player.den"
    {| player_id := 2; heos_connection := 0%nat |}.

Definition lamp : Entity := OtherEntity "light.lamp".

(** A platform that hands out those of its entities the call names. *)
Definition platform_of (name : string) (es : list Entity) : EntityPlatform :=
  {| platform_name := name;
     async_extract_from_service :=
       λ sc, filter (λ e, entity_id e ∈ target sc) es |}.

Definition example_hass : HomeAssistant :=
  {| platforms := [platform_of "heos" [kitchen; den; lamp];
                   platform_of "sonos" [OtherEntity "media_player.bath"]] |}.

Definition call_for (ids : list string) (response : bool) : ServiceCall :=
  {| target := ids; data := ∅; return_response := response |}.

Definition initial : State unit :=
  {| history := []; logs := []; locals := tt |}.

(** The [pid] parameter of a command. *)
Definition call_pid (c : Call) : option ParamValue :=
  (λ x, x.2.2) <$> list_find (λ kv, kv.1 = "pid") (call_params c).

(** Every command gets an answer without success flag. *)
Definition env_unsuccessful : Env :=
  λ _ _, Returns {| result := false; payload := PNone |}.

(** Player 1 is unreachable, the others answer with a queue of two entries. *)
Definition env_kitchen_down : Env :=
  λ _ c,
    if decide (call_pid c = Some (PInt 1))
    then Raises (HeosError "connection lost")
    else Returns {| result := true;
                    payload := PQueue [{| qid := 1 |}; {| qid := 2 |}] |}.

Definition all_three (response : bool) : ServiceCall :=
  call_for ["media_player.kitchen"; "media_player.den"; "light.lamp"] response.

(** [remove_from_queue] with [queue_id: 7] on the three entities. *)
Definition remove_seven (response : bool) : ServiceCall :=
  {| target := ["media_player.kitchen"; "media_player.den"; "light.lamp"];
     data := {["queue_id" := 7]};
     return_response := response |}.

(** The same player reached through two [heos] platforms. *)
Definition twice_hass : HomeAssistant :=
  {| platforms := [platform_of "heos" [kitchen; den];
                   platform_of "heos" [kitchen]] |}.

Definition once_hass : HomeAssistant :=
  {| platforms := [platform_of "heos" [kitchen; den]] |}.

(** A per-device function that raises as soon as it is called. *)
Definition cb_raising : ConnectionCallback unit :=
  λ _ _ _ st, (Raise (HeosError "unhandled"), st).

(** A channel that fails with an exception that is no [HeosError]. *)
Definition env_broken : Env := λ _ _, Raises (PyError "OSError").

(** A queue of three entries with the second one playing; the removal is
    refused, and the player then reports entry 1 as playing. *)
Definition env_removal_refused : Env :=
  λ h c,
    if decide (call_command c = "player/get_queue")
    then Returns {| result := true;
                    payload := PQueue [{| qid := 1 |}; {| qid := 2 |};
                                       {| qid := 3 |}] |}
    else if decide (call_command c = "player/remove_from_queue")
    then Raises (HeosError "command failed")
    else Returns {| result := true;
                    payload := PNowPlaying
                      {| type := song;
                         np_qid := if decide (length h < 3)%nat
                                   then 2 else 1 |} |}.

(** A queue with the one entry that is playing. *)
Definition env_single_entry : Env :=
  λ _ _, Returns {| result := true; payload := PQueue [{| qid := 1 |}] |}.

(** ** The records [ClearQueueExceptNowPlaying.handler] logs *)

Definition record (lvl : Level) (m : string) (a : list LogArg)
    (exc : option Exn) : LogRecord :=
  {| levelname := lvl; msg := m; args := a; exc_info := exc |}.

Definition log_now_playing (entity_id : string) (playing_qid : Z) : LogRecord :=
  record DEBUG "%s: now playing queue id %d for player %s"
    [AStr "clear_queue_except_now_playing"; AInt playing_qid; AStr entity_id]
    None.

Definition log_removing (entity_id qids_to_remove : string) : LogRecord :=
  record DEBUG "%s: removing queue items %s from player %s"
    [AStr "clear_queue_except_now_playing"; AStr qids_to_remove;
     AStr entity_id] None.

(** What the handler logs from the second [player/get_now_playing_media] on,
    by the reply to that command. *)
Definition after_maintenance_logs (entity_id : string) (r : Reply)
  : list LogRecord :=
  match r with
  | Raises (HeosError m) =>
      [record ERROR
         "%s: error with player/get_now_playing_media for player %s after queue maintenance"
         [AStr "clear_queue_except_now_playing"; AStr entity_id]
         (Some (HeosError m))]
  | Raises (PyError _) => []
  | Returns response =>
      if result response then
        match payload response with
        | PNowPlaying now =>
            record DEBUG
              "%s: now playing qid %d for player %s after queue maintenance"
              [AStr "clear_queue_except_now_playing"; AInt (np_qid now);
               AStr entity_id] None
            :: (if bool_decide (np_qid now ≠ 1)
                then [record ERROR
                        "%s: playing qid is not '1' after queue maintenance for player %s"
                        [AStr "clear_queue_except_now_playing"; AStr entity_id]
                        None]
                else [])
        | PNone | PQueue _ => []
        end
      else
        [record WARNING
           "%s: unable to get now playing after queue maintenance for player %s"
           [AStr "clear_queue_except_now_playing"; AStr entity_id] None]
  end.

(** How the handler ends, by the reply to that command. *)
Definition after_maintenance_outcome (r : Reply) : Outcome unit :=
  match r with
  | Raises (HeosError _) => Ok tt
  | Raises (PyError cls) => Raise (PyError cls)
  | Returns response =>
      if result response then
        match payload response with
        | PNowPlaying _ => Ok tt
        | PNone | PQueue _ => Raise (PyError "TypeError")
        end
      else Ok tt
  end.

(** The ids the handler asks to remove: those of the fetched entries that are
    not the playing one. *)
Definition ids_to_remove (queued_entries : list QueuedItemDict)
    (playing_qid : Z) : list Z :=
  filter (λ z, z ≠ playing_qid) (map qid queued_entries).

(** The same player when the removal goes through. *)
Definition env_removal_accepted : Env :=
  λ h c,
    if decide (call_command c = "player/remove_from_queue")
    then Returns {| result := true; payload := PNone |}
    else env_removal_refused h c.

(** ** The records of the dispatcher *)

Definition log_operating (entities : gset Entity) : LogRecord :=
  record DEBUG "operating on entities: %s" [AEntities entities] None.

Definition log_skipping (e : Entity) : LogRecord :=
  record WARNING "Skipping non HEOS media player: %s" [AStr (entity_id e)] None.

(** A call that names the lamp only. *)
Definition lamp_only : ServiceCall := call_for ["light.lamp"] true.

(** What the loop of [async_exec_command] logs over the entities [es], when
    the handler logs [lg t r] for target [t] on reply [r]: a warning for each
    entity that is skipped, the handler's records for each player. *)
Fixpoint dispatch_logs (lg : Target → Reply → list LogRecord)
    (es : list Entity) (outs : list (Target * Reply)) : list LogRecord :=
  match es with
  | [] => []
  | OtherEntity i :: es' =>
      log_skipping (OtherEntity i) :: dispatch_logs lg es' outs
  | HeosMediaPlayer _ _ :: es' =>
      match outs with
      | o :: outs' => lg o.1 o.2 ++ dispatch_logs lg es' outs'
      | [] => []
      end
  end.

(** What a handler that only reports exceptions logs on one reply. *)
Definition log_on_raise (m : string) (a : Target → list LogArg)
    (t : Target) (r : Reply) : list LogRecord :=
  match r with
  | Raises e => [record ERROR m (a t) (Some e)]
  | Returns _ => []
  end.

Definition ClearQueue_logs : Target → Reply → list LogRecord :=
  log_on_raise "%s: error when clearing queue for %s"
    (λ t, [AStr "clear_queue"; AStr (target_id t)]).

Definition GetQueue_logs : Target → Reply → list LogRecord :=
  log_on_raise "%s: error getting queue from %s"
    (λ t, [AStr "get_queue"; AStr (target_id t)]).

Definition RemoveFromQueue_logs (q : Z) : Target → Reply → list LogRecord :=
  log_on_raise "%s: error removing %d from queue for player %s"
    (λ t, [AStr "remove_from_queue"; AInt q; AStr (target_id t)]).

Definition log_service_call (name : string) (sc : ServiceCall) : LogRecord :=
  record DEBUG "%s service call: %s" [AStr name; ACall sc] None.

(** The locals [GetQueue.callback] starts from. *)
Definition GetQueue_init : GetQueue.Locals :=
  {| GetQueue.queues := ∅; GetQueue.errors := [] |}.

(** Both players answer [player/get_queue]; the den player without success
    flag. *)
Definition env_den_unsuccessful : Env :=
  λ _ c,
    if decide (call_pid c = Some (PInt 2))
    then Returns {| result := false; payload := PNone |}
    else Returns {| result := true;
                    payload := PQueue [{| qid := 5 |}; {| qid := 6 |}] |}.

(** [remove_from_queue] with [queue_id: 7] on the lamp only. *)
Definition remove_seven_lamp : ServiceCall :=
  {| target := ["light.lamp"]; data := {["queue_id" := 7]};
     return_response := true |}.

(** What [ClearQueueExceptNowPlaying.handler] logs when a fetch fails, by
    the reply: the exception, or a warning for an answer without success
    flag. *)
Definition log_fetch_failure (on_error on_failed entity_id : string)
    (r : Reply) : LogRecord :=
  match r with
  | Raises e =>
      record ERROR on_error
        [AStr "clear_queue_except_now_playing"; AStr entity_id] (Some e)
  | Returns _ =>
      record WARNING on_failed
        [AStr "clear_queue_except_now_playing"; AStr entity_id] None
  end.

(** A reply that makes a fetch fail: [HeosError], or an answer without
    success flag. *)
Definition fetch_failed (r : Reply) : Prop :=
  match r with
  | Raises (HeosError _) => True
  | Raises (PyError _) => False
  | Returns response => result response = false
  end.

(** The queue is fetched, the playing entry is not. *)
Definition env_now_playing_down : Env :=
  λ _ c,
    if decide (call_command c = "player/get_queue")
    then Returns {| result := true;
                    payload := PQueue [{| qid := 1 |}; {| qid := 2 |}] |}
    else Raises (HeosError "timeout").

(** An answer with success flag and no payload. *)
Definition env_no_payload : Env :=
  λ _ _, Returns {| result := true; payload := PNone |}.

(** The commands of [ClearQueueExceptNowPlaying.handler] for one target, in
    the order of the source. *)
Definition command_script (t : Target) (qids_to_remove : string) : list Call :=
  [get_queue_call t; get_now_playing_call t;
   remove_call (PStr qids_to_remove) t; get_now_playing_call t].

(** The playing entry is not among the fetched ones. *)
Definition env_playing_elsewhere : Env :=
  λ _ c,
    if decide (call_command c = "player/get_queue")
    then Returns {| result := true;
                    payload := PQueue [{| qid := 1 |}; {| qid := 2 |}] |}
    else Returns {| result := true;
                    payload := PNowPlaying {| type := station; np_qid := 9 |} |}.

(** The two records of the last step of
    [ClearQueueExceptNowPlaying.handler]. *)
Definition log_after_maintenance (entity_id : string) (playing_qid : Z)
  : LogRecord :=
  record DEBUG "%s: now playing qid %d for player %s after queue maintenance"
    [AStr "clear_queue_except_now_playing"; AInt playing_qid; AStr entity_id]
    None.

Definition log_not_head (entity_id : string) : LogRecord :=
  record ERROR
    "%s: playing qid is not '1' after queue maintenance for player %s"
    [AStr "clear_queue_except_now_playing"; AStr entity_id] None.

(** The commands [ClearQueueExceptNowPlaying] may send. *)
Definition maintenance_command (cr : Call * Reply) : Prop :=
  call_command cr.1 ∈ ["player/get_queue"; "player/get_now_playing_media";
                       "player/remove_from_queue"].

(** The removal goes through, but the playing entry keeps its id 2. *)
Definition env_not_renumbered : Env :=
  λ _ c,
    if decide (call_command c = "player/get_queue")
    then Returns {| result := true;
                    payload := PQueue [{| qid := 1 |}; {| qid := 2 |}] |}
    else Returns {| result := true;
                    payload := PNowPlaying {| type := song; np_qid := 2 |} |}.

(** ** Registration *)

(** The dict given to [cv.make_entity_service_schema]: its keys are
    [vol.Required] and its values the expected types. *)
Inductive VolType := vol_int.

(** The [Service] protocol: an instance of one of the four classes, bound to
    its [hass]. *)
Record Service := {
  service_name : string;
  service_schema : list (string * VolType);
  service_supports_response : SupportsResponse;
  service_callback : ServiceCall → M unit ServiceResponse
}.

Definition ClearQueue_class (env : Env) (hass : HomeAssistant) : Service :=
  {| service_name := ClearQueue.name;
     service_schema := [];
     service_supports_response := ClearQueue.supports_response;
     service_callback := ClearQueue.callback env hass |}.

Definition ClearQueueExceptNowPlaying_class (env : Env) (hass : HomeAssistant)
  : Service :=
  {| service_name := ClearQueueExceptNowPlaying.name;
     service_schema := [];
     service_supports_response := ClearQueueExceptNowPlaying.supports_response;
     service_callback := ClearQueueExceptNowPlaying.callback env hass |}.

Definition GetQueue_class (env : Env) (hass : HomeAssistant) : Service :=
  {| service_name := GetQueue.name;
     service_schema := [];
     service_supports_response := GetQueue.supports_response;
     service_callback := GetQueue.callback env hass |}.

Definition RemoveFromQueue_class (env : Env) (hass : HomeAssistant) : Service :=
  {| service_name := RemoveFromQueue.name;
     service_schema := [("queue_id", vol_int)];
     service_supports_response := RemoveFromQueue.supports_response;
     service_callback := RemoveFromQueue.callback env hass |}.

(** The inner [register] of [async_setup_entry], on [hass.services], the
    registered services by domain and name; [DOMAIN] comes from [const.py]. *)
Definition register (DOMAIN : string) (hass : HomeAssistant)
    (serviceType : HomeAssistant → Service) : M (gmap (string * string) Service) unit :=
  let service := serviceType hass in
  modify_locals
    (λ services, <[(DOMAIN, service_name service) := service]> services) ;;;
  debug "registered %s" [AStr (service_name service)].

Definition async_setup_entry (DOMAIN : string) (env : Env)
    (hass : HomeAssistant) : M (gmap (string * string) Service) bool :=
  debug "registering HEOS queue services" [] ;;;
  register DOMAIN hass (ClearQueue_class env) ;;;
  register DOMAIN hass (ClearQueueExceptNowPlaying_class env) ;;;
  register DOMAIN hass (GetQueue_class env) ;;;
  register DOMAIN hass (RemoveFromQueue_class env) ;;;
  ret true.

(** The names [async_setup_entry] registers. *)
Definition service_names : list string :=
  ["clear_queue"; "clear_queue_except_now_playing"; "get_queue";
   "remove_from_queue"].

(** The kitchen player answers; on the den player the channel breaks with an
    exception that is no [HeosError]. *)
Definition env_den_broken : Env :=
  λ _ c,
    if decide (call_pid c = Some (PInt 2))
    then Raises (PyError "OSError")
    else Returns {| result := true;
                    payload := PQueue [{| qid := 5 |}; {| qid := 6 |}] |}.

(** The state in which the loop of [async_exec_command] starts: the entity
    set is logged. *)
Definition dispatch_start {L} (hass : HomeAssistant) (sc : ServiceCall)
    (st : State L) : State L :=
  {| history := history st;
     logs := logs st
             ++ [log_operating (entity_set (extract_entities hass sc))];
     locals := locals st |}.

(** The state in which the loop starts inside a callback that logged the
    service call first. *)
Definition callback_start {L} (name : string) (hass : HomeAssistant)
    (sc : ServiceCall) (st : State L) : State L :=
  dispatch_start hass sc
    {| history := history st;
       logs := logs st ++ [log_service_call name sc];
       locals := locals st |}.

(** ** The loop *)

Lemma bind_ok {L A B} (m : M L A) (k : A → M L B) st a st' :
  m st = (Ok a, st') → bind m k st = k a st'.
Proof. unfold bind. by intros ->. Qed.

Lemma bind_raise {L A B} (m : M L A) (k : A → M L B) st e st' :
  m st = (Raise e, st') → bind m k st = (Raise e, st').
Proof. unfold bind. by intros ->. Qed.

Lemma for_each_app {L A} (xs ys : list A) (body : A → M L unit) st :
  for_each (xs ++ ys) body st
  = bind (for_each xs body) (λ _, for_each ys body) st.
Proof.
  revert st. induction xs as [|x xs IH]; intros st; simpl.
  - done.
  - unfold bind in *. destruct (body x st) as [[[]|e] st1]; [|done].
    apply IH.
Qed.

(** A raise in the loop body ends the loop: nothing of the rest runs. *)
Lemma for_each_raise {L A} (x : A) (xs : list A) (body : A → M L unit) st e st' :
  body x st = (Raise e, st') → for_each (x :: xs) body st = (Raise e, st').
Proof. intros H. simpl. by apply bind_raise. Qed.

Lemma async_exec_command_unfold {L} hass sc (cb : ConnectionCallback L) st :
  async_exec_command hass sc cb st
  = for_each (elements (entity_set (extract_entities hass sc)))
      (exec_entity cb)
      {| history := history st;
         logs := logs st ++
           [{| levelname := DEBUG; msg := "operating on entities: %s";
               args := [AEntities (entity_set (extract_entities hass sc))];
               exc_info := None |}];
         locals := locals st |}.
Proof. done. Qed.

(** The loop over the entities with a recording callback that never raises:
    every HEOS entity is written down, in order, and the loop ends normally. *)
Lemma for_each_recording {L} (cb : ConnectionCallback L) (es : list Entity) :
  never_raises cb →
  ∀ st : State (list Target * L),
    ∃ st', for_each es (exec_entity (recording cb)) st = (Ok tt, st')
           ∧ (locals st').1 = (locals st).1 ++ heos_targets es.
Proof.
  intros Hcb. induction es as [|e es IH]; intros st; simpl.
  - exists st. by rewrite app_nil_r.
  - destruct e as [i p|i]; simpl.
    + unfold bind, recording.
      specialize (Hcb i (player_id p) (heos_connection p)
                    (set_locals (locals st).2 st)).
      destruct (cb i (player_id p) (heos_connection p) _) as [o st1].
      simpl in Hcb. subst o.
      destruct (IH (set_locals
                      ((locals st).1 ++ [(i, player_id p, heos_connection p)],
                       locals st1) st1)) as (st' & Hrun & Hloc).
      exists st'. split; [done|].
      rewrite Hloc. simpl. by rewrite <-app_assoc.
    + unfold bind. simpl.
      match goal with |- context [for_each es _ ?s] =>
        destruct (IH s) as (st' & Hrun & Hloc) end.
      exists st'. split; [done|]. by rewrite Hloc.
Qed.

Lemma heos_targets_NoDup (es : list Entity) :
  NoDup es → NoDup (heos_targets es).
Proof.
  induction 1 as [|e es Hnotin _ IH]; simpl; [constructor|].
  destruct e as [i [p c]|i]; simpl; [|done].
  constructor; [|done].
  intros Hin. apply Hnotin.
  unfold heos_targets in Hin. apply list_elem_of_omap in Hin.
  destruct Hin as ([j [q d]|j] & Hj & Heq); simplify_eq/=. done.
Qed.

Lemma resolved_targets_NoDup hass sc : NoDup (resolved_targets hass sc).
Proof. apply heos_targets_NoDup, NoDup_elements. Qed.

(** A dispatch whose callback never raises calls it on every resolved target
    and returns. *)
Lemma dispatch_total {L} hass sc (cb : ConnectionCallback L) (st : State L) :
  never_raises cb →
  invocations hass sc cb st = resolved_targets hass sc
  ∧ dispatch_outcome hass sc (recording cb) (set_locals ([], locals st) st)
    = Ok tt.
Proof.
  intros Hcb. unfold invocations, dispatch_outcome.
  rewrite async_exec_command_unfold.
  match goal with |- context [for_each ?es _ ?s] =>
    destruct (for_each_recording cb es Hcb s) as (st' & Hrun & Hloc) end.
  rewrite Hrun. simpl in *. by rewrite Hloc.
Qed.

(** The recording does not change what the run does: forgetting the written
    invocations gives the run of the callback itself. *)
Lemma recording_faithful {L} (cb : ConnectionCallback L) (es : list Entity)
    (st : State (list Target * L)) :
  let r := for_each es (exec_entity (recording cb)) st in
  for_each es (exec_entity cb) (set_locals (locals st).2 st)
  = (r.1, set_locals (locals r.2).2 r.2).
Proof.
  revert st. induction es as [|e es IH]; intros st; simpl; [done|].
  unfold bind. destruct e as [i p|i]; simpl.
  - unfold recording.
    destruct (cb i (player_id p) (heos_connection p) _) as [[[]|e] st1] eqn:E.
    + rewrite <-IH. simpl. by destruct st1.
    + simpl. by destruct st1.
  - rewrite <-IH. done.
Qed.

(** ** Handlers that send one command per device *)

Lemma device_outcomes_targets env mk h ts :
  map fst (device_outcomes env mk h ts) = ts.
Proof.
  revert h. induction ts as [|t ts IH]; intros h; simpl; [done|].
  by rewrite IH.
Qed.

Lemma device_outcomes_length env mk h ts :
  length (device_outcomes env mk h ts) = length ts.
Proof. by rewrite <-(device_outcomes_targets env mk h ts) at 2; rewrite length_map. Qed.

Lemma heos_reply env h c :
  raises_only_HeosError env →
  (∃ resp, env h c = Returns resp) ∨ (∃ m, env h c = Raises (HeosError m)).
Proof.
  intros Henv. destruct (env h c) as [resp|[m|cls]] eqn:E; eauto.
  apply Henv in E. discriminate.
Qed.

Section one_command.
Context {L : Type}.
Variable env : Env.
Variable mk : Target → Call.
Variable upd : Target → Reply → L → L.
Variable cb : ConnectionCallback L.

Hypothesis Hcb : ∀ i p c (st : State L),
  ∃ st', cb i p c st = (Ok tt, st')
         ∧ history st' = history st ++ [(mk (i, p, c), env (history st) (mk (i, p, c)))]
         ∧ locals st' = upd (i, p, c) (env (history st) (mk (i, p, c))) (locals st).

Lemma for_each_outcomes (es : list Entity) (st : State L) :
  let outs := device_outcomes env mk (history st) (heos_targets es) in
  ∃ st', for_each es (exec_entity cb) st = (Ok tt, st')
         ∧ history st' = history st ++ map (λ o, (mk o.1, o.2)) outs
         ∧ locals st' = foldl (λ l o, upd o.1 o.2 l) (locals st) outs.
Proof.
  revert st. induction es as [|e es IH]; intros st; simpl.
  - exists st. by rewrite app_nil_r.
  - destruct e as [i p|i]; simpl.
    + destruct (Hcb i (player_id p) (heos_connection p) st)
        as (st1 & Hrun & Hh & Hl).
      destruct (IH st1) as (st' & Hrun' & Hh' & Hl').
      exists st'. rewrite (bind_ok _ _ _ _ _ Hrun).
      split; [done|]. rewrite Hh', Hl', Hh, Hl.
      by rewrite <-app_assoc.
    + unfold bind. simpl.
      match goal with |- context [for_each es _ ?s] =>
        destruct (IH s) as (st' & Hrun & Hh & Hl) end.
      exists st'. done.
Qed.

Lemma dispatch_outcomes hass sc (st : State L) :
  let outs := device_outcomes env mk (history st) (resolved_targets hass sc) in
  ∃ st', async_exec_command hass sc cb st = (Ok tt, st')
         ∧ history st' = history st ++ map (λ o, (mk o.1, o.2)) outs
         ∧ locals st' = foldl (λ l o, upd o.1 o.2 l) (locals st) outs.
Proof.
  rewrite async_exec_command_unfold.
  match goal with |- context [for_each ?es _ ?s] =>
    apply (for_each_outcomes es s) end.
Qed.
End one_command.

Lemma GetQueue_handler_step env i p c (st : State GetQueue.Locals) :
  raises_only_HeosError env →
  ∃ st', GetQueue.handler env i p c st = (Ok tt, st')
         ∧ history st' = history st ++ [(get_queue_call (i, p, c),
                                         env (history st) (get_queue_call (i, p, c)))]
         ∧ locals st' = GetQueue_upd (i, p, c)
                          (env (history st) (get_queue_call (i, p, c))) (locals st).
Proof.
  intros Henv.
  unfold GetQueue.handler, try_except_HeosError, bind, command, get_queue_call.
  simpl.
  destruct (heos_reply env (history st)
              {| call_connection := c; call_command := "player/get_queue";
                 call_params := [("pid", PInt p)] |} Henv) as [[resp E]|[m E]];
    rewrite E; simpl.
  - destruct (result resp); simpl; eexists; (split; [reflexivity|]); simpl.
    + done.
    + by destruct st as [? ? []].
  - eexists. split; [reflexivity|]. done.
Qed.

Lemma RemoveFromQueue_handler_step env q i p c (st : State (list string)) :
  raises_only_HeosError env →
  ∃ st', RemoveFromQueue.handler env q i p c st = (Ok tt, st')
         ∧ history st' = history st ++ [(remove_call (PInt q) (i, p, c),
                                         env (history st) (remove_call (PInt q) (i, p, c)))]
         ∧ locals st' = RemoveFromQueue_upd (i, p, c)
                          (env (history st) (remove_call (PInt q) (i, p, c)))
                          (locals st).
Proof.
  intros Henv.
  unfold RemoveFromQueue.handler, try_except_HeosError, bind, command,
    remove_call.
  simpl.
  destruct (heos_reply env (history st)
              {| call_connection := c; call_command := "player/remove_from_queue";
                 call_params := [("pid", PInt p); ("qid", PInt q)] |} Henv)
    as [[resp E]|[m E]]; rewrite E; simpl;
    eexists; (split; [reflexivity|]); done.
Qed.

Lemma ClearQueue_handler_step {L} env i p c (st : State L) :
  raises_only_HeosError env →
  ∃ st', ClearQueue.handler env i p c st = (Ok tt, st')
         ∧ history st' = history st ++ [(clear_queue_call (i, p, c),
                                         env (history st) (clear_queue_call (i, p, c)))]
         ∧ locals st' = locals st.
Proof.
  intros Henv.
  unfold ClearQueue.handler, try_except_HeosError, bind, command,
    clear_queue_call.
  simpl.
  destruct (heos_reply env (history st)
              {| call_connection := c; call_command := "player/clear_queue";
                 call_params := [("pid", PInt p)] |} Henv)
    as [[resp E]|[m E]]; rewrite E; simpl;
    eexists; (split; [reflexivity|]); done.
Qed.

(** ** What [GetQueue] and [RemoveFromQueue] accumulate *)

Lemma outcomes_partition (outs : list (Target * Reply)) :
  length outs
  = (length (filter raised outs) + length (filter unsuccessful outs)
     + length (filter successful outs))%nat.
Proof.
  induction outs as [|[t r] outs IH]; [done|].
  rewrite !filter_cons. unfold raised, unsuccessful, successful in *.
  simpl. destruct r as [[[] pl]|e]; simpl; rewrite IH; lia.
Qed.

Lemma RemoveFromQueue_fold errors outs :
  foldl (λ l o, RemoveFromQueue_upd o.1 o.2 l) errors outs
  = errors ++ map outcome_id (filter raised outs).
Proof.
  revert errors. induction outs as [|[t r] outs IH]; intros errors; simpl.
  - by rewrite app_nil_r.
  - rewrite IH, filter_cons. unfold raised at 2. simpl.
    destruct r as [resp|e]; simpl; [done|]. by rewrite <-app_assoc.
Qed.

Lemma GetQueue_fold_errors l outs :
  GetQueue.errors (foldl (λ l o, GetQueue_upd o.1 o.2 l) l outs)
  = GetQueue.errors l ++ map outcome_id (filter raised outs).
Proof.
  revert l. induction outs as [|[t r] outs IH]; intros l; simpl.
  - by rewrite app_nil_r.
  - rewrite IH, filter_cons. unfold raised at 2. simpl.
    destruct r as [[[] pl]|e]; simpl; [done|done|]. by rewrite <-app_assoc.
Qed.

Lemma GetQueue_fold_dom l outs :
  dom (GetQueue.queues (foldl (λ l o, GetQueue_upd o.1 o.2 l) l outs))
  = dom (GetQueue.queues l)
    ∪ list_to_set (map outcome_id (filter successful outs)).
Proof.
  revert l. induction outs as [|[t r] outs IH]; intros l; simpl.
  - by rewrite (right_id_L ∅ (∪)).
  - rewrite IH, filter_cons. unfold successful at 2. simpl.
    destruct r as [[[] pl]|e]; simpl; [|done|done].
    rewrite dom_insert_L. unfold outcome_id at 2. simpl.
    rewrite (comm_L (∪) {[target_id t]}). by rewrite (assoc_L (∪)).
Qed.

Lemma GetQueue_fold_size l outs :
  NoDup (map outcome_id outs) →
  (∀ o, o ∈ outs → GetQueue.queues l !! outcome_id o = None) →
  size (GetQueue.queues (foldl (λ l o, GetQueue_upd o.1 o.2 l) l outs))
  = (size (GetQueue.queues l) + length (filter successful outs))%nat.
Proof.
  revert l. induction outs as [|[t r] outs IH]; intros l Hnd Hfresh; simpl.
  - lia.
  - apply NoDup_cons in Hnd as [Hnotin Hnd].
    assert (Ht : GetQueue.queues l !! target_id t = None).
    { apply (Hfresh (t, r)). by left. }
    assert (Hne : ∀ o, o ∈ outs → target_id t ≠ outcome_id o).
    { intros o Ho Heq. apply Hnotin. apply list_elem_of_fmap. by exists o. }
    assert (Hold : ∀ o, o ∈ outs → GetQueue.queues l !! outcome_id o = None).
    { intros o Ho. apply Hfresh. by right. }
    rewrite filter_cons. unfold successful at 2. simpl.
    destruct r as [[[] pl]|e]; simpl.
    + rewrite IH; [|done|].
      * simpl. rewrite map_size_insert_None by done. lia.
      * intros o Ho. simpl. rewrite lookup_insert_ne; auto.
    + rewrite IH; [lia|done|done].
    + rewrite IH; [simpl; lia|done|done].
Qed.

Lemma outcome_ids env mk h ts :
  map outcome_id (device_outcomes env mk h ts) = map target_id ts.
Proof.
  rewrite <-(device_outcomes_targets env mk h ts) at 2.
  by rewrite <-list_fmap_compose.
Qed.

(** An identifier names at most one outcome when the identifiers are distinct. *)
Lemma outcome_id_unique (outs : list (Target * Reply)) o1 o2 :
  NoDup (map outcome_id outs) → o1 ∈ outs → o2 ∈ outs →
  outcome_id o1 = outcome_id o2 → o1 = o2.
Proof.
  induction outs as [|o outs IH]; intros Hnd H1 H2 Heq.
  - by apply elem_of_nil in H1.
  - apply NoDup_cons in Hnd as [Hnotin Hnd].
    apply elem_of_cons in H1 as [->|H1]; apply elem_of_cons in H2 as [->|H2].
    + done.
    + exfalso. apply Hnotin. rewrite Heq. apply list_elem_of_fmap. by exists o2.
    + exfalso. apply Hnotin. rewrite <-Heq. apply list_elem_of_fmap. by exists o1.
    + by apply IH.
Qed.

(** The run of [GetQueue.callback] over a channel that raises nothing but
    [HeosError]: one [player/get_queue] per target, and the response. *)
Lemma GetQueue_run env hass sc (st : State unit) :
  raises_only_HeosError env →
  let outs := device_outcomes env get_queue_call (history st)
                (resolved_targets hass sc) in
  ∃ q st',
    GetQueue.callback env hass sc st
    = (Ok (Some [("count", VInt (size q)); ("queues", VQueues q);
                 ("errors", VErrors (map outcome_id (filter raised outs)))]),
       st')
    ∧ history st' = history st ++ map (λ o, (get_queue_call o.1, o.2)) outs
    ∧ dom q = list_to_set (map outcome_id (filter successful outs))
    ∧ (NoDup (map target_id (resolved_targets hass sc)) →
       size q = length (filter successful outs)).
Proof.
  intros Henv outs.
  pose (l0 := {| GetQueue.queues := ∅; GetQueue.errors := [] |}).
  pose (st1 := {| history := history st;
                  logs := logs st ++
                    [{| levelname := DEBUG; msg := "%s service call: %s";
                        args := [AStr GetQueue.name; ACall sc];
                        exc_info := None |}];
                  locals := l0 |}).
  destruct (dispatch_outcomes env get_queue_call GetQueue_upd
              (GetQueue.handler env)
              (λ i p c s, GetQueue_handler_step env i p c s Henv)
              hass sc st1) as (st2 & Hrun & Hh & Hl).
  exists (GetQueue.queues (locals st2)), (set_locals tt st2).
  unfold GetQueue.callback, bind, with_locals, debug, log, get_locals, ret.
  simpl. fold l0. change (set_locals l0 _) with st1. rewrite Hrun. simpl.
  simpl in Hh, Hl. fold outs in Hh, Hl.
  repeat split.
  - rewrite Hl, GetQueue_fold_errors. done.
  - done.
  - rewrite Hl, GetQueue_fold_dom. simpl. by rewrite dom_empty_L, (left_id_L ∅ (∪)).
  - intros Hnd. rewrite Hl, GetQueue_fold_size.
    + done.
    + unfold outs. by rewrite outcome_ids.
    + intros o _. apply lookup_empty.
Qed.

Lemma outcome_kinds (o : Target * Reply) :
  (raised o → ¬ successful o) ∧ (unsuccessful o → ¬ successful o)
  ∧ (unsuccessful o → ¬ raised o).
Proof.
  unfold raised, unsuccessful, successful.
  destruct o as [t [[[] pl]|e]]; simpl; naive_solver.
Qed.

(** With distinct identifiers, an identifier is among those of the raised
    (or successful) outcomes exactly when its own outcome is one. *)
Lemma outcome_classified (P : Target * Reply → bool) outs o :
  NoDup (map outcome_id outs) → o ∈ outs →
  outcome_id o ∈ map outcome_id (filter P outs) ↔ P o.
Proof.
  intros Hnd Ho. split.
  - intros Hin. apply list_elem_of_fmap in Hin as (o' & Heq & Ho').
    apply list_elem_of_filter in Ho' as [HP Ho'].
    by rewrite (outcome_id_unique outs o o' Hnd Ho Ho' Heq).
  - intros HP. apply list_elem_of_fmap. exists o. split; [done|].
    by apply list_elem_of_filter.
Qed.

(** C3 (amended): [get_queue] over N devices, of which M raise [HeosError]
    and K answer without success flag, over a channel that raises nothing
    else and a host whose entity identifiers are distinct: the callback
    returns count = N - M - K, errors are the M identifiers of the devices
    that raised, queues has N - M - K keys; a device that raised is in errors
    and not in queues, a device that answered without success flag is in
    neither. *)
Theorem get_queue_aggregate_counts env hass sc (st : State unit) :
  raises_only_HeosError env →
  NoDup (map target_id (resolved_targets hass sc)) →
  let outs := device_outcomes env get_queue_call (history st)
                (resolved_targets hass sc) in
  let N := length (resolved_targets hass sc) in
  let M := length (filter raised outs) in
  let K := length (filter unsuccessful outs) in
  ∃ q errs st',
    GetQueue.callback env hass sc st
    = (Ok (Some [("count", VInt (N - M - K)); ("queues", VQueues q);
                 ("errors", VErrors errs)]), st')
    ∧ (M + K ≤ N)%nat
    ∧ length errs = M
    ∧ size q = (N - M - K)%nat
    ∧ (∀ o, o ∈ outs → raised o →
         outcome_id o ∈ errs ∧ q !! outcome_id o = None)
    ∧ (∀ o, o ∈ outs → unsuccessful o →
         (outcome_id o ∉ errs) ∧ q !! outcome_id o = None).
Proof.
  intros Henv Hnd outs N M K.
  destruct (GetQueue_run env hass sc st Henv) as (q & st' & Hrun & _ & Hdom & Hsize).
  fold outs in Hrun, Hdom, Hsize. specialize (Hsize Hnd).
  assert (Hids : NoDup (map outcome_id outs)).
  { unfold outs. by rewrite outcome_ids. }
  assert (HN : N = (M + K + length (filter successful outs))%nat).
  { unfold N, M, K. rewrite <-outcomes_partition. unfold outs.
    by rewrite device_outcomes_length. }
  assert (Hq : size q = (N - M - K)%nat) by lia.
  assert (Hnotin : ∀ o, o ∈ outs → ¬ successful o → q !! outcome_id o = None).
  { intros o Ho Hns. apply not_elem_of_dom. rewrite Hdom.
    rewrite elem_of_list_to_set. by rewrite outcome_classified. }
  exists q, (map outcome_id (filter raised outs)), st'.
  rewrite <-Hq. split; [done|]. split; [lia|]. split; [by rewrite length_map|].
  split; [done|]. split.
  - intros o Ho Hr. destruct (outcome_kinds o) as (? & ? & ?). split.
    + by apply outcome_classified.
    + apply Hnotin; auto.
  - intros o Ho Hu. destruct (outcome_kinds o) as (? & ? & ?). split.
    + rewrite outcome_classified by done. auto.
    + apply Hnotin; auto.
Qed.

(** C10: the aggregate of [get_queue] has count = number of keys of queues,
    no key of queues is in errors, and a device whose [player/get_queue]
    returned without success flag is in neither. *)
Theorem get_queue_aggregate_invariants env hass sc (st : State unit) :
  raises_only_HeosError env →
  NoDup (map target_id (resolved_targets hass sc)) →
  let outs := device_outcomes env get_queue_call (history st)
                (resolved_targets hass sc) in
  ∃ n q errs st',
    GetQueue.callback env hass sc st
    = (Ok (Some [("count", VInt n); ("queues", VQueues q);
                 ("errors", VErrors errs)]), st')
    ∧ n = size q
    ∧ (∀ k, k ∈ dom q → k ∉ errs)
    ∧ (∀ t resp, (t, Returns resp) ∈ outs → result resp = false →
         (target_id t ∉ dom q) ∧ (target_id t ∉ errs)).
Proof.
  intros Henv Hnd outs.
  destruct (GetQueue_run env hass sc st Henv) as (q & st' & Hrun & _ & Hdom & _).
  fold outs in Hrun, Hdom.
  assert (Hids : NoDup (map outcome_id outs)).
  { unfold outs. by rewrite outcome_ids. }
  exists (size q), q, (map outcome_id (filter raised outs)), st'.
  split; [done|]. split; [done|]. split.
  - intros k. rewrite Hdom, elem_of_list_to_set.
    intros Hs Hr.
    apply list_elem_of_fmap in Hs as (o & -> & Ho).
    apply list_elem_of_filter in Ho as [Hsucc Ho].
    apply (outcome_classified raised outs o Hids Ho) in Hr.
    destruct (outcome_kinds o) as (Hrs & _ & _). by apply Hrs.
  - intros t resp Ho Hres.
    assert (Hu : unsuccessful (t, Returns resp)).
    { unfold unsuccessful. simpl. by rewrite Hres. }
    change (target_id t) with (outcome_id (t, Returns resp)).
    rewrite Hdom, elem_of_list_to_set, !outcome_classified by done.
    destruct (outcome_kinds (t, Returns resp)) as (? & ? & ?). auto.
Qed.

Lemma get_queue_aggregate_counts_witness :
  ∃ q errs st',
    GetQueue.callback env_kitchen_down example_hass (all_three true) initial
    = (Ok (Some [("count", VInt 1); ("queues", VQueues q);
                 ("errors", VErrors errs)]), st')
    ∧ length errs = 1%nat ∧ size q = 1%nat.
Proof.
  assert (H1 : raises_only_HeosError env_kitchen_down).
  { intros h c e. unfold env_kitchen_down. case_decide; intros [= <-]. done. }
  assert (H2 : NoDup (map target_id
                        (resolved_targets example_hass (all_three true)))).
  { apply (bool_decide_unpack _). vm_compute. exact I. }
  destruct (get_queue_aggregate_counts env_kitchen_down example_hass
              (all_three true) initial H1 H2)
    as (q & errs & st' & Hrun & _ & Herrs & Hq & _).
  exists q, errs, st'. split; [exact Hrun|]. split; [exact Herrs|exact Hq].
Defined.

(** C3, as stated, fails: two devices answer [player/get_queue] without
    success flag, so both count as failed (N = 2, M = 2), yet errors is empty
    where the claim wants two entries. *)
Lemma get_queue_unsuccessful_not_in_errors :
  let outs := device_outcomes env_unsuccessful get_queue_call []
                (resolved_targets example_hass (all_three true)) in
  (GetQueue.callback env_unsuccessful example_hass (all_three true) initial).1
  = Ok (Some [("count", VInt 0); ("queues", VQueues ∅); ("errors", VErrors [])])
  ∧ length (resolved_targets example_hass (all_three true)) = 2%nat
  ∧ length (filter (λ o, raised o || unsuccessful o) outs) = 2%nat
  ∧ length ([] : list string) ≠ 2%nat.
Proof. vm_compute. repeat split; congruence. Qed.

Lemma get_queue_aggregate_invariants_witness :
  ∃ q st',
    GetQueue.callback env_unsuccessful example_hass (all_three true) initial
    = (Ok (Some [("count", VInt (size q)); ("queues", VQueues q);
                 ("errors", VErrors [])]), st')
    ∧ "media_player.den" ∉ dom q.
Proof.
  assert (H1 : raises_only_HeosError env_unsuccessful).
  { intros h c e. unfold env_unsuccessful. intros [=]. }
  assert (H2 : NoDup (map target_id
                        (resolved_targets example_hass (all_three true)))).
  { apply (bool_decide_unpack _). vm_compute. exact I. }
  destruct (get_queue_aggregate_invariants env_unsuccessful example_hass
              (all_three true) initial H1 H2)
    as (n & q & errs & st' & Hrun & Hn & _ & Hflag).
  assert (Herrs : errs = []).
  { assert (H := f_equal fst Hrun). vm_compute in H. by injection H. }
  exists q, st'. subst n errs. split; [exact Hrun|].
  refine (proj1 (Hflag ("media_player.den", 2, 0%nat)
                   {| result := false; payload := PNone |} _ eq_refl)).
  vm_compute. right. left.
Defined.

(** ** [RemoveFromQueue] *)

Lemma RemoveFromQueue_run env hass sc q (st : State unit) :
  raises_only_HeosError env →
  data sc !! "queue_id" = Some q →
  let outs := device_outcomes env (remove_call (PInt q)) (history st)
                (resolved_targets hass sc) in
  ∃ st',
    RemoveFromQueue.callback env hass sc st
    = (Ok (if return_response sc
           then Some [("errors", VErrors (map outcome_id (filter raised outs)))]
           else None), st')
    ∧ history st' = history st
                    ++ map (λ o, (remove_call (PInt q) o.1, o.2)) outs.
Proof.
  intros Henv Hq outs.
  pose (st1 := {| history := history st;
                  logs := logs st ++
                    [{| levelname := DEBUG; msg := "%s service call: %s";
                        args := [AStr RemoveFromQueue.name; ACall sc];
                        exc_info := None |}];
                  locals := @nil string |}).
  destruct (dispatch_outcomes env (remove_call (PInt q)) RemoveFromQueue_upd
              (RemoveFromQueue.handler env q)
              (λ i p c s, RemoveFromQueue_handler_step env q i p c s Henv)
              hass sc st1) as (st2 & Hrun & Hh & Hl).
  exists (set_locals tt st2).
  unfold RemoveFromQueue.callback, bind, debug, log. simpl. rewrite Hq.
  unfold with_locals, bind, get_locals, ret. simpl.
  change (set_locals [] _) with st1. rewrite Hrun. simpl.
  simpl in Hh, Hl. fold outs in Hh, Hl.
  rewrite Hl, RemoveFromQueue_fold. simpl.
  by destruct (return_response sc).
Qed.

(** C8 (amended): [remove_from_queue] with a [queue_id], over a channel that
    raises nothing but [HeosError]: when a response is requested the callback
    returns exactly [{"errors": ...}] with the identifiers of the devices
    whose command raised, in the order they were visited, a device whose
    command returned adding none; when no response is requested it returns
    [None]; the devices get the same commands either way. *)
Theorem remove_from_queue_response env hass sc q (st : State unit) :
  raises_only_HeosError env →
  data sc !! "queue_id" = Some q →
  let outs := device_outcomes env (remove_call (PInt q)) (history st)
                (resolved_targets hass sc) in
  let failed := map outcome_id (filter raised outs) in
  ∃ st',
    RemoveFromQueue.callback env hass sc st
    = (Ok (if return_response sc then Some [("errors", VErrors failed)]
           else None), st')
    ∧ history st' = history st
                    ++ map (λ o, (remove_call (PInt q) o.1, o.2)) outs.
Proof. apply RemoveFromQueue_run. Qed.

Lemma remove_from_queue_response_witness :
  (∃ st', RemoveFromQueue.callback env_kitchen_down example_hass
            (remove_seven true) initial
          = (Ok (Some [("errors", VErrors ["media_player.kitchen"])]), st'))
  ∧ (∃ st', RemoveFromQueue.callback env_kitchen_down example_hass
              (remove_seven false) initial
            = (Ok None, st')).
Proof.
  assert (H1 : raises_only_HeosError env_kitchen_down).
  { intros h c e. unfold env_kitchen_down. case_decide; intros [= <-]. done. }
  split.
  - destruct (remove_from_queue_response env_kitchen_down example_hass
                (remove_seven true) 7 initial H1 eq_refl) as (st' & Hrun & _).
    exists st'. exact Hrun.
  - destruct (remove_from_queue_response env_kitchen_down example_hass
                (remove_seven false) 7 initial H1 eq_refl) as (st' & Hrun & _).
    exists st'. exact Hrun.
Defined.

(** C8, as stated, fails: both players answer [player/remove_from_queue]
    without success flag, so the removal failed on both, and the response
    lists neither: the handler does not look at the result flag. *)
Lemma remove_from_queue_refused_not_in_errors :
  let outs := device_outcomes env_unsuccessful (remove_call (PInt 7)) []
                (resolved_targets example_hass (remove_seven true)) in
  (RemoveFromQueue.callback env_unsuccessful example_hass (remove_seven true)
     initial).1
  = Ok (Some [("errors", VErrors [])])
  ∧ map (λ o, (target_id o.1, o.2)) outs
    = [("media_player.kitchen", Returns {| result := false; payload := PNone |});
       ("media_player.den", Returns {| result := false; payload := PNone |})]
  ∧ length (filter (λ o, raised o || unsuccessful o) outs) = 2%nat
  ∧ length ([] : list string) ≠ 2%nat.
Proof. vm_compute. repeat split; congruence. Qed.

(** C4: [remove_from_queue] without [queue_id] in the service data sends no
    command to any device, logs one error for the call as a whole, and
    returns no response. *)
Theorem remove_from_queue_missing_queue_id env hass sc (st : State unit) :
  data sc !! "queue_id" = None →
  RemoveFromQueue.callback env hass sc st
  = (Ok None,
     {| history := history st;
        logs := logs st ++
          [{| levelname := DEBUG; msg := "%s service call: %s";
              args := [AStr "remove_from_queue"; ACall sc];
              exc_info := None |};
           {| levelname := ERROR;
              msg := "%s: missing queue_id in service data";
              args := [AStr "remove_from_queue"]; exc_info := None |}];
        locals := locals st |}).
Proof.
  intros Hq. unfold RemoveFromQueue.callback, bind, debug, error, log, ret.
  simpl. rewrite Hq. simpl. by rewrite <-app_assoc.
Qed.

Lemma remove_from_queue_missing_queue_id_witness :
  data (all_three true) !! "queue_id" = None
  ∧ (RemoveFromQueue.callback env_kitchen_down example_hass (all_three true)
       initial).1 = Ok None
  ∧ history (RemoveFromQueue.callback env_kitchen_down example_hass
               (all_three true) initial).2 = [].
Proof.
  split; [reflexivity|].
  rewrite (remove_from_queue_missing_queue_id env_kitchen_down example_hass
             (all_three true) initial eq_refl).
  split; reflexivity.
Defined.

(** ** Resolution and dispatch *)

Lemma entity_set_same (l1 l2 : list (list Entity)) :
  (∀ e, e ∈ concat l1 ↔ e ∈ concat l2) → entity_set l1 = entity_set l2.
Proof.
  intros H. unfold entity_set. apply set_eq. intros e.
  by rewrite !elem_of_list_to_set.
Qed.

Lemma for_each_never_raises {L} (cb : ConnectionCallback L) es (st : State L) :
  never_raises cb → (for_each es (exec_entity cb) st).1 = Ok tt.
Proof.
  intros Hcb. revert st. induction es as [|e es IH]; intros st; simpl; [done|].
  unfold bind. destruct e as [i p|i]; simpl.
  - specialize (Hcb i (player_id p) (heos_connection p) st).
    destruct (cb i (player_id p) (heos_connection p) st) as [o st1].
    simpl in Hcb. subst o. apply IH.
  - apply IH.
Qed.

Lemma dispatch_never_raises {L} hass sc (cb : ConnectionCallback L) st :
  never_raises cb → dispatch_outcome hass sc cb st = Ok tt.
Proof.
  intros Hcb. unfold dispatch_outcome. rewrite async_exec_command_unfold.
  by apply for_each_never_raises.
Qed.

Lemma recording_eq {L} (cb : ConnectionCallback L) i p c
    (st : State (list Target * L)) o st1 :
  cb i p c (set_locals (locals st).2 st) = (o, st1) →
  recording cb i p c st
  = (o, set_locals ((locals st).1 ++ [(i, p, c)], locals st1) st1).
Proof. unfold recording. by intros ->. Qed.

Lemma for_each_recording_prefix {L} (cb : ConnectionCallback L) es
    (st : State (list Target * L)) :
  let run := for_each es (exec_entity (recording cb)) st in
  ∃ called rest,
    heos_targets es = called ++ rest
    ∧ (locals run.2).1 = (locals st).1 ++ called
    ∧ (run.1 = Ok tt → rest = [])
    ∧ (∀ e, run.1 = Raise e →
         ∃ before t s, called = before ++ [t]
                       ∧ (cb t.1.1 t.1.2 t.2 s).1 = Raise e).
Proof.
  revert st. induction es as [|e es IH]; intros st; simpl.
  - exists [], []. split_and!; try done. by rewrite app_nil_r.
  - destruct e as [i p|i]; simpl.
    + unfold bind.
      destruct (cb i (player_id p) (heos_connection p)
                  (set_locals (locals st).2 st)) as [[[]|e] st1] eqn:E;
        rewrite (recording_eq _ _ _ _ _ _ _ E).
      * match goal with |- context [for_each es _ ?s] =>
          destruct (IH s) as (called & rest & Hsplit & Hloc & Hok & Hraise)
        end.
        exists ((i, player_id p, heos_connection p) :: called), rest.
        split; [by rewrite Hsplit|]. split.
        { rewrite Hloc. simpl. by rewrite <-app_assoc. }
        split; [done|].
        intros e He. destruct (Hraise e He) as (before & t & s & -> & Ht).
        by exists ((i, player_id p, heos_connection p) :: before), t, s.
      * exists [(i, player_id p, heos_connection p)], (heos_targets es).
        simpl. split; [done|]. split; [done|]. split; [done|].
        intros e' [= <-].
        exists [], (i, player_id p, heos_connection p),
          (set_locals (locals st).2 st).
        split; [done|]. simpl. by rewrite E.
    + unfold bind. simpl.
      match goal with |- context [for_each es _ ?s] =>
        destruct (IH s) as (called & rest & Hsplit & Hloc & Hok & Hraise)
      end.
      by exists called, rest.
Qed.

(** Whatever the per-device function does, the targets it was called on are
    an initial stretch of the resolved targets. *)
Lemma dispatch_calls_prefix {L} hass sc (cb : ConnectionCallback L)
    (st : State L) :
  let run := async_exec_command hass sc (recording cb)
               (set_locals ([], locals st) st) in
  ∃ rest,
    resolved_targets hass sc = invocations hass sc cb st ++ rest
    ∧ (run.1 = Ok tt → rest = [])
    ∧ (∀ e, run.1 = Raise e →
         ∃ before t s, invocations hass sc cb st = before ++ [t]
                       ∧ (cb t.1.1 t.1.2 t.2 s).1 = Raise e).
Proof.
  intros run. unfold run, invocations. rewrite async_exec_command_unfold.
  match goal with |- context [for_each ?es _ ?s] =>
    destruct (for_each_recording_prefix cb es s)
      as (called & rest & Hsplit & Hloc & Hok & Hraise) end.
  exists rest. rewrite Hloc. done.
Qed.

Lemma ClearQueue_never_raises {L} env :
  raises_only_HeosError env → never_raises (@ClearQueue.handler L env).
Proof.
  intros Henv i p c st.
  by destruct (ClearQueue_handler_step env i p c st Henv) as (st' & -> & _).
Qed.

(** C9: the targets of a call hold no entity twice, whatever the platforms
    yield: the entity set and the resolved targets are free of duplicates,
    every yielded entity is in the set, and the set is that of the
    de-duplicated yield; the dispatcher never calls the per-device function
    twice on a target, and a function that returns normally is called on
    every yielded HEOS player, however often it was yielded; two calls that
    yield the same entities, with or without repetitions, resolve to the same
    set, hence to the same targets and the same invocations up to the order
    of the loop. *)
Theorem resolution_deduplicates hass sc :
  let yielded := concat (extract_entities hass sc) in
  NoDup (elements (entity_set (extract_entities hass sc)))
  ∧ NoDup (resolved_targets hass sc)
  ∧ (∀ e, e ∈ elements (entity_set (extract_entities hass sc)) ↔ e ∈ yielded)
  ∧ entity_set (extract_entities hass sc) = entity_set [remove_dups yielded]
  ∧ (∀ L (cb : ConnectionCallback L) (st : State L),
       NoDup (invocations hass sc cb st))
  ∧ (∀ L (cb : ConnectionCallback L) (st : State L) i p,
       never_raises cb → HeosMediaPlayer i p ∈ yielded →
       (i, player_id p, heos_connection p) ∈ invocations hass sc cb st)
  ∧ (∀ hass' sc',
       (∀ e, e ∈ concat (extract_entities hass' sc') ↔ e ∈ yielded) →
       entity_set (extract_entities hass' sc')
       = entity_set (extract_entities hass sc)
       ∧ resolved_targets hass' sc' ≡ₚ resolved_targets hass sc
       ∧ ∀ L (cb : ConnectionCallback L) (st st' : State L),
           never_raises cb →
           invocations hass' sc' cb st' ≡ₚ invocations hass sc cb st).
Proof.
  intros yielded.
  assert (Hsame : ∀ l, (∀ e, e ∈ concat l ↔ e ∈ yielded) →
                       entity_set l = entity_set (extract_entities hass sc)).
  { intros l Hl. by apply entity_set_same. }
  split; [apply NoDup_elements|]. split; [apply resolved_targets_NoDup|].
  split.
  { intros e. unfold entity_set. by rewrite elem_of_elements, elem_of_list_to_set. }
  split.
  { symmetry. apply Hsame. intros e. simpl. rewrite app_nil_r.
    apply elem_of_remove_dups. }
  split.
  { intros L cb st.
    destruct (dispatch_calls_prefix hass sc cb st) as (rest & Hsplit & _).
    pose proof (resolved_targets_NoDup hass sc) as Hnd.
    rewrite Hsplit in Hnd. by apply NoDup_app in Hnd as [Hnd _]. }
  split.
  { intros L cb st i p Hcb Hin.
    destruct (dispatch_total hass sc cb st Hcb) as [-> _].
    unfold resolved_targets, heos_targets. apply list_elem_of_omap.
    exists (HeosMediaPlayer i p). split; [|done].
    unfold entity_set. by rewrite elem_of_elements, elem_of_list_to_set. }
  intros hass' sc' Hyield. specialize (Hsame _ Hyield).
  assert (Htargets : resolved_targets hass' sc' = resolved_targets hass sc).
  { unfold resolved_targets. by rewrite Hsame. }
  split; [done|]. split; [by rewrite Htargets|].
  intros L cb st st' Hcb.
  destruct (dispatch_total hass sc cb st Hcb) as [-> _].
  destruct (dispatch_total hass' sc' cb st' Hcb) as [-> _].
  by rewrite Htargets.
Qed.

Lemma resolution_deduplicates_witness :
  concat (extract_entities twice_hass (all_three true))
  = [kitchen; den; kitchen]
  ∧ NoDup (invocations twice_hass (all_three true) cb_raising initial)
  ∧ ("media_player.kitchen", 1, 0%nat)
    ∈ invocations twice_hass (all_three true)
        (ClearQueue.handler env_kitchen_down) initial
  ∧ resolved_targets once_hass (all_three true)
    ≡ₚ resolved_targets twice_hass (all_three true).
Proof.
  destruct (resolution_deduplicates twice_hass (all_three true))
    as (_ & _ & _ & _ & Hnodup & Hcalled & Hsame).
  split; [reflexivity|]. split; [apply Hnodup|]. split.
  - apply (Hcalled _ _ _ "media_player.kitchen"
             {| player_id := 1; heos_connection := 0%nat |}).
    + apply ClearQueue_never_raises.
      intros h c e. unfold env_kitchen_down. case_decide; intros [= <-]. done.
    + vm_compute. left.
  - refine (proj1 (proj2 (Hsame once_hass (all_three true) _))).
    intros e.
    change (e ∈ [kitchen; den] ↔ e ∈ [kitchen; den; kitchen]).
    rewrite !elem_of_cons. tauto.
Defined.

(** C1 (amended): for a per-device function that returns normally on every
    call, [async_exec_command] calls it exactly once per resolved target,
    in the order of the loop: none twice, none left out, and the targets are
    the HEOS players among the yielded entities. *)
Theorem dispatch_once_per_target {L} hass sc (cb : ConnectionCallback L)
    (st : State L) :
  never_raises cb →
  invocations hass sc cb st = resolved_targets hass sc
  ∧ NoDup (invocations hass sc cb st)
  ∧ (∀ i p, HeosMediaPlayer i p ∈ concat (extract_entities hass sc)
            ↔ (i, player_id p, heos_connection p) ∈ invocations hass sc cb st)
  ∧ dispatch_outcome hass sc cb st = Ok tt.
Proof.
  intros Hcb. destruct (dispatch_total hass sc cb st Hcb) as [Hinv _].
  rewrite Hinv. split; [done|]. split; [apply resolved_targets_NoDup|].
  split; [|by apply dispatch_never_raises].
  intros i p. unfold resolved_targets, heos_targets.
  rewrite list_elem_of_omap. unfold entity_set. split.
  - intros Hin. exists (HeosMediaPlayer i p).
    by rewrite elem_of_elements, elem_of_list_to_set.
  - intros ([j [q d]|j] & Hin & Heq); simplify_eq/=.
    rewrite elem_of_elements, elem_of_list_to_set in Hin.
    by destruct p.
Qed.

Lemma dispatch_once_per_target_witness :
  invocations example_hass (all_three false)
    (ClearQueue.handler env_kitchen_down) initial
  = [("media_player.kitchen", 1, 0%nat); ("media_player.den", 2, 0%nat)].
Proof.
  assert (H1 : raises_only_HeosError env_kitchen_down).
  { intros h c e. unfold env_kitchen_down. case_decide; intros [= <-]. done. }
  rewrite (proj1 (dispatch_once_per_target example_hass (all_three false)
                    (ClearQueue.handler env_kitchen_down) initial
                    (ClearQueue_never_raises env_kitchen_down H1))).
  vm_compute. reflexivity.
Defined.

(** C1, as stated, fails: the per-device function raises on the first target,
    the kitchen player, and is never called on the second, the den player. *)
Lemma dispatch_omits_targets_after_raise :
  resolved_targets example_hass (all_three false)
  = [("media_player.kitchen", 1, 0%nat); ("media_player.den", 2, 0%nat)]
  ∧ invocations example_hass (all_three false) cb_raising initial
    = [("media_player.kitchen", 1, 0%nat)]
  ∧ dispatch_outcome example_hass (all_three false) cb_raising initial
    = Raise (HeosError "unhandled").
Proof. vm_compute. done. Qed.

(** C2, as stated, fails: the channel raises an exception that is no
    [HeosError] on the kitchen player's command; [ClearQueue.handler] does
    not catch it, [async_exec_command] does not either, the call ends with
    that exception and no command is ever sent to the den player.  Likewise
    a per-device function that raises [HeosError] itself ends the call. *)
Lemma exception_leaves_dispatch :
  dispatch_outcome example_hass (all_three false)
    (ClearQueue.handler env_broken) initial
  = Raise (PyError "OSError")
  ∧ (ClearQueue.callback env_broken example_hass (all_three false) initial).1
    = Raise (PyError "OSError")
  ∧ invocations example_hass (all_three false)
      (ClearQueue.handler env_broken) initial
    = [("media_player.kitchen", 1, 0%nat)]
  ∧ map fst (history (ClearQueue.callback env_broken example_hass
                        (all_three false) initial).2)
    = [clear_queue_call ("media_player.kitchen", 1, 0%nat)]
  ∧ dispatch_outcome example_hass (all_three false) cb_raising initial
    = Raise (HeosError "unhandled").
Proof. vm_compute. done. Qed.

(** ** The comma-joined list of queue ids *)

Lemma pretty_N_char_no_comma x : pretty_N_char x ≠ ","%char.
Proof. unfold pretty_N_char. by repeat case_match. Qed.

Lemma pretty_N_go_comma_free x s :
  comma_free s → comma_free (pretty_N_go x s).
Proof.
  revert s. induction (N.lt_wf_0 x) as [x _ IH]; intros s Hs.
  destruct (decide (x = 0)%N) as [->|Hx].
  - by rewrite pretty_N_go_0.
  - rewrite pretty_N_go_step by lia. apply IH.
    + apply N.div_lt; lia.
    + split; [apply pretty_N_char_no_comma|done].
Qed.

Lemma pretty_N_go_nonempty x s : s ≠ EmptyString → pretty_N_go x s ≠ EmptyString.
Proof.
  revert s. induction (N.lt_wf_0 x) as [x _ IH]; intros s Hs.
  destruct (decide (x = 0)%N) as [->|Hx].
  - by rewrite pretty_N_go_0.
  - rewrite pretty_N_go_step by lia. apply IH; [apply N.div_lt; lia|done].
Qed.

Lemma pretty_pos_go x : pretty (Npos x) = pretty_N_go (Npos x) EmptyString.
Proof. unfold pretty, pretty_N. by case_decide. Qed.

Lemma str_comma_free z : comma_free (str z).
Proof.
  unfold str, pretty, pretty_Z. destruct z as [|x|x].
  - by compute.
  - unfold pretty, pretty_positive. rewrite pretty_pos_go.
    by apply pretty_N_go_comma_free.
  - split; [done|]. unfold pretty, pretty_positive. rewrite pretty_pos_go.
    by apply pretty_N_go_comma_free.
Qed.

Lemma str_nonempty z : str z ≠ EmptyString.
Proof.
  unfold str, pretty, pretty_Z. destruct z as [|x|x]; [done| |done].
  unfold pretty, pretty_positive. rewrite pretty_pos_go.
  rewrite pretty_N_go_step by lia. by apply pretty_N_go_nonempty.
Qed.

Lemma append_String a x s :
  String.append (String a x) s = String a (String.append x s).
Proof. reflexivity. Qed.

Lemma append_Empty s : String.append EmptyString s = s.
Proof. reflexivity. Qed.

Lemma append_comma_tail_inj a b s t :
  comma_free a → comma_free b → comma_tail s → comma_tail t →
  String.append a s = String.append b t → a = b ∧ s = t.
Proof.
  revert b. induction a as [|x a IH]; intros [|y b] Ha Hb Hs Ht Heq;
    rewrite ?append_String, ?append_Empty in Heq; simpl in *.
  - done.
  - destruct Hs as [->|[s' ->]]; [done|]. injection Heq as <- _. by destruct Hb.
  - destruct Ht as [->|[t' ->]]; [done|]. injection Heq as -> _. by destruct Ha.
  - injection Heq as -> Heq. destruct Ha as [_ Ha], Hb as [_ Hb].
    destruct (IH b Ha Hb Hs Ht Heq) as [-> ->]. done.
Qed.

Lemma concat_cons (x : string) (xs : list string) :
  String.concat "," (x :: xs)
  = String.append x (match xs with
                     | [] => EmptyString
                     | _ :: _ => String ","%char (String.concat "," xs)
                     end).
Proof.
  destruct xs as [|x' xs]; simpl; [|done].
  induction x as [|a x IH]; [done|]. rewrite append_String. congruence.
Qed.

Lemma concat_comma_inj (l1 l2 : list string) :
  Forall (λ s, comma_free s ∧ s ≠ EmptyString) l1 →
  Forall (λ s, comma_free s ∧ s ≠ EmptyString) l2 →
  String.concat "," l1 = String.concat "," l2 → l1 = l2.
Proof.
  intros H1. revert l2.
  induction H1 as [|x xs [Hx Hxne] Hxs IH]; intros l2 H2 Heq.
  - destruct H2 as [|y ys [Hy Hyne] Hys]; [done|].
    rewrite concat_cons in Heq.
    destruct y; [done|by rewrite append_String in Heq].
  - destruct H2 as [|y ys [Hy Hyne] Hys].
    + rewrite concat_cons in Heq.
      destruct x; [done|by rewrite append_String in Heq].
    + rewrite !concat_cons in Heq.
      apply append_comma_tail_inj in Heq as [-> Htail]; [|done|done|..].
      * f_equal. destruct xs as [|x' xs], ys as [|y' ys]; try done.
        injection Htail as Htail. by apply IH.
      * destruct xs; [by left|right; eauto].
      * destruct ys; [by left|right; eauto].
Qed.

(** A joined string of ids stands for one list of ids only. *)
Lemma join_qids_inj (ids ids' : list Z) :
  String.concat "," (map str ids') = String.concat "," (map str ids) →
  ids' = ids.
Proof.
  intros Heq. apply concat_comma_inj in Heq.
  - revert ids Heq. induction ids' as [|z ids' IH]; intros [|z' ids] Heq;
      simplify_eq/=; done.
  - apply Forall_fmap, Forall_true. intros z. simpl.
    split; [apply str_comma_free|apply str_nonempty].
  - apply Forall_fmap, Forall_true. intros z. simpl.
    split; [apply str_comma_free|apply str_nonempty].
Qed.

(** ** [ClearQueueExceptNowPlaying] *)

Lemma ClearQueueExceptNowPlaying_short_queue {L} env i p c (st : State L) resp q :
  env (history st) (get_queue_call (i, p, c)) = Returns resp →
  payload resp = PQueue q →
  (length q ≤ 1)%nat →
  ∃ st', ClearQueueExceptNowPlaying.handler env i p c st = (Ok tt, st')
         ∧ history st' = history st ++ [(get_queue_call (i, p, c), Returns resp)]
         ∧ locals st' = locals st.
Proof.
  intros Hr Hp Hlen.
  unfold ClearQueueExceptNowPlaying.handler, try_except_HeosError, bind, command.
  unfold get_queue_call in *. simpl in *. rewrite Hr. simpl.
  destruct (result resp); simpl.
  - rewrite Hp. simpl.
    destruct (Nat.leb_spec (length q) 1) as [_|Hgt]; [|lia].
    eexists. split; [reflexivity|]. done.
  - eexists. split; [reflexivity|]. done.
Qed.

(** C5: when [player/get_queue] returns a queue of at most one entry, the
    handler returns normally with that one command sent: no
    [player/get_now_playing_media], no [player/remove_from_queue]. *)
Theorem clear_except_short_queue_stops {L} env i p c (st : State L) resp q :
  env (history st) (get_queue_call (i, p, c)) = Returns resp →
  payload resp = PQueue q →
  (length q ≤ 1)%nat →
  ∃ st', ClearQueueExceptNowPlaying.handler env i p c st = (Ok tt, st')
         ∧ history st' = history st ++ [(get_queue_call (i, p, c), Returns resp)]
         ∧ locals st' = locals st.
Proof. apply ClearQueueExceptNowPlaying_short_queue. Qed.

Lemma clear_except_short_queue_stops_witness :
  map fst (history (ClearQueueExceptNowPlaying.handler env_single_entry
                      "media_player.kitchen" 1 0%nat initial).2)
  = [get_queue_call ("media_player.kitchen", 1, 0%nat)].
Proof.
  destruct (clear_except_short_queue_stops env_single_entry
              "media_player.kitchen" 1 0%nat initial
              {| result := true; payload := PQueue [{| qid := 1 |}] |}
              [{| qid := 1 |}] eq_refl eq_refl)
    as (st' & Hrun & Hh & _).
  - simpl. lia.
  - rewrite Hrun. simpl. rewrite Hh. reflexivity.
Defined.

Lemma joined_ids (q : list QueuedItemDict) (playing : Z) :
  map (λ i, str (qid i)) (filter (λ i, qid i ≠ playing) q)
  = map str (ids_to_remove q playing).
Proof.
  unfold ids_to_remove. induction q as [|x q IH]; [done|].
  rewrite filter_cons. simpl. rewrite filter_cons.
  destruct (decide (qid x ≠ playing)); simpl; by rewrite IH.
Qed.

(** The run of the handler on a queue of more than one entry with the playing
    entry known: the removal is sent once; unless the channel breaks with
    another exception than [HeosError], the playing entry is fetched again,
    and the end of the run depends on that last reply only. *)
Lemma ClearQueueExceptNowPlaying_run {L} env i p c (st : State L) resp q resp2 now :
  let t := (i, p, c) in
  let h1 := history st ++ [(get_queue_call t, Returns resp)] in
  let h2 := h1 ++ [(get_now_playing_call t, Returns resp2)] in
  let qids := String.concat "," (map str (ids_to_remove q (np_qid now))) in
  let removal := remove_call (PStr qids) t in
  let h3 := h2 ++ [(removal, env h2 removal)] in
  let r4 := env h3 (get_now_playing_call t) in
  env (history st) (get_queue_call t) = Returns resp →
  result resp = true → payload resp = PQueue q → (1 < length q)%nat →
  env h1 (get_now_playing_call t) = Returns resp2 →
  result resp2 = true → payload resp2 = PNowPlaying now →
  ClearQueueExceptNowPlaying.handler env i p c st
  = match env h2 removal with
    | Raises (PyError cls) =>
        (Raise (PyError cls),
         {| history := h3;
            logs := logs st ++ [log_now_playing i (np_qid now);
                                log_removing i qids];
            locals := locals st |})
    | _ =>
        (after_maintenance_outcome r4,
         {| history := h3 ++ [(get_now_playing_call t, r4)];
            logs := logs st ++ [log_now_playing i (np_qid now);
                                log_removing i qids]
                    ++ after_maintenance_logs i r4;
            locals := locals st |})
    end.
Proof.
  intros t h1 h2 qids removal h3 r4 Hr1 Hres1 Hp1 Hlen Hr2 Hres2 Hp2.
  unfold ClearQueueExceptNowPlaying.handler, try_except_HeosError, bind,
    command, lift.
  unfold r4, h3, removal, qids, h2, h1, t, get_queue_call,
    get_now_playing_call, remove_call in *.
  simpl in *. rewrite Hr1. simpl. rewrite Hres1. simpl. rewrite Hp1. simpl.
  destruct (Nat.leb_spec (length q) 1) as [Hle|_]; [lia|]. simpl.
  rewrite Hr2. simpl. rewrite Hres2. simpl. rewrite Hp2. simpl.
  rewrite joined_ids.
  destruct (env _ _) as [resp3|[m3|cls3]] eqn:Hr3 at 1;
    rewrite ?Hr3; simpl; rewrite <-?app_assoc; simpl.
  - destruct (env _ _) as [[[] pl4]|[m4|cls4]] eqn:Hr4 at 1;
      rewrite ?Hr4; simpl; [destruct pl4; simpl| | |];
      rewrite <-?app_assoc; simpl; try done.
    case_bool_decide; unfold error, log, ret; simpl;
      rewrite <-?app_assoc; done.
  - destruct (env _ _) as [[[] pl4]|[m4|cls4]] eqn:Hr4 at 1;
      rewrite ?Hr4; simpl; [destruct pl4; simpl| | |];
      rewrite <-?app_assoc; simpl; try done.
    case_bool_decide; unfold error, log, ret; simpl;
      rewrite <-?app_assoc; done.
  - done.
Qed.

(** C6: with more than one fetched entry and the playing entry fetched, the
    handler sends [player/remove_from_queue] exactly once, and the
    comma-joined string it carries lists the ids of the fetched entries other
    than the playing one: each of them, no other id, and the string stands
    for no other list of ids. *)
Theorem clear_except_batched_removal {L} env i p c (st : State L)
    resp q resp2 now :
  let t := (i, p, c) in
  let h1 := history st ++ [(get_queue_call t, Returns resp)] in
  let h2 := h1 ++ [(get_now_playing_call t, Returns resp2)] in
  env (history st) (get_queue_call t) = Returns resp →
  result resp = true → payload resp = PQueue q → (1 < length q)%nat →
  env h1 (get_now_playing_call t) = Returns resp2 →
  result resp2 = true → payload resp2 = PNowPlaying now →
  let ids := ids_to_remove q (np_qid now) in
  let removal := remove_call (PStr (String.concat "," (map str ids))) t in
  let sent := drop (length (history st))
                (history (ClearQueueExceptNowPlaying.handler env i p c st).2) in
  filter (λ cr, call_command cr.1 = "player/remove_from_queue") sent
  = [(removal, env h2 removal)]
  ∧ (∀ z, z ∈ ids ↔ z ∈ map qid q ∧ z ≠ np_qid now)
  ∧ (∀ ids', String.concat "," (map str ids')
             = String.concat "," (map str ids) → ids' = ids).
Proof.
  intros t h1 h2 Hr1 Hres1 Hp1 Hlen Hr2 Hres2 Hp2 ids removal sent.
  split; [|split].
  - unfold sent.
    rewrite (ClearQueueExceptNowPlaying_run env i p c st resp q resp2 now
               Hr1 Hres1 Hp1 Hlen Hr2 Hres2 Hp2).
    fold t h1 h2 ids removal.
    assert (Hsent : ∀ rest,
      drop (length (history st)) ((h2 ++ [(removal, env h2 removal)]) ++ rest)
      = [(get_queue_call t, Returns resp);
         (get_now_playing_call t, Returns resp2);
         (removal, env h2 removal)] ++ rest).
    { intros rest. unfold h2, h1. rewrite <-!app_assoc. by rewrite drop_app_length. }
    destruct (env h2 removal) as [resp3|[m3|cls3]]; simpl history.
    + by rewrite Hsent.
    + by rewrite Hsent.
    + rewrite <-(app_nil_r (h2 ++ _)). by rewrite Hsent.
  - intros z. unfold ids, ids_to_remove. rewrite list_elem_of_filter. tauto.
  - apply join_qids_inj.
Qed.

Lemma clear_except_batched_removal_witness :
  filter (λ cr, call_command cr.1 = "player/remove_from_queue")
    (history (ClearQueueExceptNowPlaying.handler env_removal_refused
                "media_player.kitchen" 1 0%nat initial).2)
  = [(remove_call (PStr "1,3") ("media_player.kitchen", 1, 0%nat),
      Raises (HeosError "command failed"))].
Proof.
  refine (proj1 (clear_except_batched_removal env_removal_refused
                  "media_player.kitchen" 1 0%nat initial
                  {| result := true;
                     payload := PQueue [{| qid := 1 |}; {| qid := 2 |};
                                        {| qid := 3 |}] |}
                  [{| qid := 1 |}; {| qid := 2 |}; {| qid := 3 |}]
                  {| result := true;
                     payload := PNowPlaying {| type := song; np_qid := 2 |} |}
                  {| type := song; np_qid := 2 |}
                  eq_refl eq_refl eq_refl _ eq_refl eq_refl eq_refl)).
  simpl. lia.
Defined.

(** C7 (amended): when the batched [player/remove_from_queue] raises
    [HeosError], the handler swallows it without a log record and goes on:
    [player/get_now_playing_media] is sent again, and how the handler ends and
    what else it logs depend on the reply to that command alone. *)
Theorem clear_except_removal_failure_ignored {L} env i p c (st : State L)
    resp q resp2 now m :
  let t := (i, p, c) in
  let h1 := history st ++ [(get_queue_call t, Returns resp)] in
  let h2 := h1 ++ [(get_now_playing_call t, Returns resp2)] in
  let qids := String.concat "," (map str (ids_to_remove q (np_qid now))) in
  let removal := remove_call (PStr qids) t in
  let h3 := h2 ++ [(removal, Raises (HeosError m))] in
  let r4 := env h3 (get_now_playing_call t) in
  env (history st) (get_queue_call t) = Returns resp →
  result resp = true → payload resp = PQueue q → (1 < length q)%nat →
  env h1 (get_now_playing_call t) = Returns resp2 →
  result resp2 = true → payload resp2 = PNowPlaying now →
  env h2 removal = Raises (HeosError m) →
  ClearQueueExceptNowPlaying.handler env i p c st
  = (after_maintenance_outcome r4,
     {| history := h3 ++ [(get_now_playing_call t, r4)];
        logs := logs st ++ [log_now_playing i (np_qid now);
                            log_removing i qids]
                ++ after_maintenance_logs i r4;
        locals := locals st |}).
Proof.
  intros t h1 h2 qids removal h3 r4 Hr1 Hres1 Hp1 Hlen Hr2 Hres2 Hp2 Hr3.
  rewrite (ClearQueueExceptNowPlaying_run env i p c st resp q resp2 now
             Hr1 Hres1 Hp1 Hlen Hr2 Hres2 Hp2).
  fold t h1 h2 qids removal. rewrite Hr3. done.
Qed.

Lemma clear_except_removal_failure_ignored_witness :
  ClearQueueExceptNowPlaying.handler env_removal_refused
    "media_player.kitchen" 1 0%nat initial
  = (Ok tt,
     {| history :=
          [(get_queue_call ("media_player.kitchen", 1, 0%nat),
            Returns {| result := true;
                       payload := PQueue [{| qid := 1 |}; {| qid := 2 |};
                                          {| qid := 3 |}] |});
           (get_now_playing_call ("media_player.kitchen", 1, 0%nat),
            Returns {| result := true;
                       payload := PNowPlaying {| type := song; np_qid := 2 |} |});
           (remove_call (PStr "1,3") ("media_player.kitchen", 1, 0%nat),
            Raises (HeosError "command failed"));
           (get_now_playing_call ("media_player.kitchen", 1, 0%nat),
            Returns {| result := true;
                       payload := PNowPlaying {| type := song; np_qid := 1 |} |})];
        logs :=
          [log_now_playing "media_player.kitchen" 2;
           log_removing "media_player.kitchen" "1,3";
           record DEBUG
             "%s: now playing qid %d for player %s after queue maintenance"
             [AStr "clear_queue_except_now_playing"; AInt 1;
              AStr "media_player.kitchen"] None];
        locals := tt |}).
Proof.
  rewrite (clear_except_removal_failure_ignored env_removal_refused
             "media_player.kitchen" 1 0%nat initial
             {| result := true;
                payload := PQueue [{| qid := 1 |}; {| qid := 2 |};
                                   {| qid := 3 |}] |}
             [{| qid := 1 |}; {| qid := 2 |}; {| qid := 3 |}]
             {| result := true;
                payload := PNowPlaying {| type := song; np_qid := 2 |} |}
             {| type := song; np_qid := 2 |} "command failed"
             eq_refl eq_refl eq_refl ltac:(simpl; lia)
             eq_refl eq_refl eq_refl eq_refl).
  reflexivity.
Defined.

(** C7, as stated, fails: the removal raises [HeosError] and nothing is
    logged about it.  The run logs three [DEBUG] records and no exception,
    the very records of the run in which the removal goes through. *)
Lemma removal_failure_not_logged :
  let refused := (ClearQueueExceptNowPlaying.handler env_removal_refused
                    "media_player.kitchen" 1 0%nat initial).2 in
  let accepted := (ClearQueueExceptNowPlaying.handler env_removal_accepted
                     "media_player.kitchen" 1 0%nat initial).2 in
  history refused !! 2%nat
  = Some (remove_call (PStr "1,3") ("media_player.kitchen", 1, 0%nat),
          Raises (HeosError "command failed"))
  ∧ Forall (λ r, levelname r = DEBUG ∧ exc_info r = None) (logs refused)
  ∧ logs refused = logs accepted.
Proof.
  vm_compute. split; [done|]. split; [|done].
  repeat constructor.
Qed.

(** ** Exceptions and the four handlers *)

Lemma GetQueue_never_raises env :
  raises_only_HeosError env → never_raises (GetQueue.handler env).
Proof.
  intros Henv i p c st.
  by destruct (GetQueue_handler_step env i p c st Henv) as (st' & -> & _).
Qed.

Lemma RemoveFromQueue_never_raises env q :
  raises_only_HeosError env → never_raises (RemoveFromQueue.handler env q).
Proof.
  intros Henv i p c st.
  by destruct (RemoveFromQueue_handler_step env q i p c st Henv)
    as (st' & -> & _).
Qed.

Lemma after_maintenance_ok env h c :
  raises_only_HeosError env → typed_payloads env →
  call_command c = "player/get_now_playing_media" →
  after_maintenance_outcome (env h c) = Ok tt.
Proof.
  intros Henv Htyped Hc. unfold after_maintenance_outcome.
  destruct (heos_reply env h c Henv) as [[resp E]|[m E]]; rewrite E; [|done].
  destruct (result resp) eqn:Hres; [|done].
  destruct (Htyped h c resp E Hres) as [_ Hnow].
  destruct (Hnow Hc) as [now ->]. done.
Qed.

Lemma ClearQueueExceptNowPlaying_never_raises {L} env :
  raises_only_HeosError env → typed_payloads env →
  never_raises (@ClearQueueExceptNowPlaying.handler L env).
Proof.
  intros Henv Htyped i p c st.
  destruct (heos_reply env (history st) (get_queue_call (i, p, c)) Henv)
    as [[resp Hr1]|[m Hr1]].
  - destruct (result resp) eqn:Hres1.
    + destruct (Htyped _ _ _ Hr1 Hres1) as [Hq _].
      destruct (Hq eq_refl) as [q Hp1].
      destruct (decide (length q ≤ 1)%nat) as [Hlen|Hlen].
      { by destruct (ClearQueueExceptNowPlaying_short_queue env i p c st
                       resp q Hr1 Hp1 Hlen) as (st' & -> & _). }
      destruct (heos_reply env
                  (history st ++ [(get_queue_call (i, p, c), Returns resp)])
                  (get_now_playing_call (i, p, c)) Henv)
        as [[resp2 Hr2]|[m Hr2]].
      * destruct (result resp2) eqn:Hres2.
        -- destruct (Htyped _ _ _ Hr2 Hres2) as [_ Hn].
           destruct (Hn eq_refl) as [now Hp2].
           rewrite (ClearQueueExceptNowPlaying_run env i p c st resp q
                      resp2 now Hr1 Hres1 Hp1 ltac:(lia) Hr2 Hres2 Hp2).
           match goal with |- context [match env ?h ?r with _ => _ end] =>
             destruct (heos_reply env h r Henv) as [[r3 ->]|[m3 ->]] end;
             simpl; by apply after_maintenance_ok.
        -- unfold ClearQueueExceptNowPlaying.handler, try_except_HeosError,
             bind, command, lift.
           unfold get_queue_call, get_now_playing_call in *. simpl in *.
           rewrite Hr1. simpl. rewrite Hres1. simpl. rewrite Hp1. simpl.
           destruct (Nat.leb_spec (length q) 1) as [Hle|_]; [lia|]. simpl.
           rewrite Hr2. simpl. rewrite Hres2. done.
      * unfold ClearQueueExceptNowPlaying.handler, try_except_HeosError,
          bind, command, lift.
        unfold get_queue_call, get_now_playing_call in *. simpl in *.
        rewrite Hr1. simpl. rewrite Hres1. simpl. rewrite Hp1. simpl.
        destruct (Nat.leb_spec (length q) 1) as [Hle|_]; [lia|]. simpl.
        rewrite Hr2. done.
    + unfold ClearQueueExceptNowPlaying.handler, try_except_HeosError,
        bind, command. unfold get_queue_call in *. simpl in *.
      rewrite Hr1. simpl. rewrite Hres1. done.
  - unfold ClearQueueExceptNowPlaying.handler, try_except_HeosError,
      bind, command. unfold get_queue_call in *. simpl in *.
    rewrite Hr1. done.
Qed.

(** C2 (amended): over a channel that raises nothing but [HeosError] and
    answers with payloads of the protocol's shapes, a [HeosError] raised for
    one device is caught inside the handler, in each of the four services:
    the dispatch returns normally and the handler is called on every resolved
    target, whichever commands failed. *)
Theorem heos_errors_stay_in_handler env hass sc :
  raises_only_HeosError env → typed_payloads env →
  (∀ st : State unit,
     dispatch_outcome hass sc (ClearQueue.handler env) st = Ok tt
     ∧ invocations hass sc (ClearQueue.handler env) st
       = resolved_targets hass sc)
  ∧ (∀ st : State unit,
       dispatch_outcome hass sc (ClearQueueExceptNowPlaying.handler env) st
       = Ok tt
       ∧ invocations hass sc (ClearQueueExceptNowPlaying.handler env) st
         = resolved_targets hass sc)
  ∧ (∀ st : State GetQueue.Locals,
       dispatch_outcome hass sc (GetQueue.handler env) st = Ok tt
       ∧ invocations hass sc (GetQueue.handler env) st
         = resolved_targets hass sc)
  ∧ (∀ q (st : State (list string)),
       dispatch_outcome hass sc (RemoveFromQueue.handler env q) st = Ok tt
       ∧ invocations hass sc (RemoveFromQueue.handler env q) st
         = resolved_targets hass sc).
Proof.
  intros Henv Htyped.
  assert (Hall : ∀ L (cb : ConnectionCallback L) (st : State L),
    never_raises cb →
    dispatch_outcome hass sc cb st = Ok tt
    ∧ invocations hass sc cb st = resolved_targets hass sc).
  { intros L cb st Hcb. split; [by apply dispatch_never_raises|].
    by apply dispatch_total. }
  split; [|split; [|split]]; intros; apply Hall.
  - by apply ClearQueue_never_raises.
  - by apply ClearQueueExceptNowPlaying_never_raises.
  - by apply GetQueue_never_raises.
  - by apply RemoveFromQueue_never_raises.
Qed.

Lemma heos_errors_stay_in_handler_witness :
  dispatch_outcome example_hass (all_three false)
    (ClearQueueExceptNowPlaying.handler env_removal_refused) initial = Ok tt
  ∧ invocations example_hass (all_three false)
      (ClearQueueExceptNowPlaying.handler env_removal_refused) initial
    = [("media_player.kitchen", 1, 0%nat); ("media_player.den", 2, 0%nat)].
Proof.
  assert (H1 : raises_only_HeosError env_removal_refused).
  { intros h c e. unfold env_removal_refused.
    repeat case_decide; intros [= <-]; done. }
  assert (H2 : typed_payloads env_removal_refused).
  { intros h c r Hr _. unfold env_removal_refused in Hr.
    repeat case_decide; simplify_eq; simpl; (split; intros Hc);
      try congruence; eauto. }
  destruct (proj1 (proj2 (heos_errors_stay_in_handler env_removal_refused
                            example_hass (all_three false) H1 H2)) initial)
    as [Hout Hinv].
  split; [exact Hout|]. rewrite Hinv. vm_compute. reflexivity.
Defined.

(** ** More on the dispatcher *)

Lemma for_each_no_targets {L} (cb : ConnectionCallback L) es (st : State L) :
  heos_targets es = [] →
  for_each es (exec_entity cb) st
  = (Ok tt, {| history := history st;
               logs := logs st ++ map log_skipping es;
               locals := locals st |}).
Proof.
  revert st. induction es as [|e es IH]; intros st Hnone; simpl.
  - rewrite app_nil_r. by destruct st.
  - destruct e as [i p|i]; [done|]. simpl in Hnone.
    unfold bind. simpl. rewrite IH by done. simpl.
    by rewrite <-app_assoc.
Qed.

(** X1: a call that resolves to no HEOS player (no entity at all, or
    entities of other kinds only) never calls the per-device function and
    sends nothing: the dispatch returns normally, having logged the entity
    set and one warning per skipped entity. *)
Theorem dispatch_without_heos_player {L} hass sc (cb : ConnectionCallback L)
    (st : State L) :
  resolved_targets hass sc = [] →
  let entities := entity_set (extract_entities hass sc) in
  async_exec_command hass sc cb st
  = (Ok tt, {| history := history st;
               logs := logs st ++ log_operating entities
                                  :: map log_skipping (elements entities);
               locals := locals st |}).
Proof.
  intros Hnone entities. rewrite async_exec_command_unfold.
  fold entities. rewrite for_each_no_targets by done. simpl.
  by rewrite <-app_assoc.
Qed.

Lemma dispatch_without_heos_player_witness :
  resolved_targets example_hass lamp_only = []
  ∧ async_exec_command example_hass lamp_only cb_raising initial
    = (Ok tt,
       {| history := [];
          logs := [log_operating {[lamp]}; log_skipping lamp];
          locals := tt |}).
Proof.
  split; [vm_compute; reflexivity|].
  rewrite (dispatch_without_heos_player example_hass lamp_only cb_raising
             initial); [|vm_compute; reflexivity].
  vm_compute. reflexivity.
Defined.

Lemma for_each_raise_at {L} (cb : ConnectionCallback L) es1 i p es2
    (s s1 s2 : State L) e :
  for_each es1 (exec_entity cb) s = (Ok tt, s1) →
  cb i (player_id p) (heos_connection p) s1 = (Raise e, s2) →
  for_each (es1 ++ HeosMediaPlayer i p :: es2) (exec_entity cb) s
  = (Raise e, s2).
Proof.
  intros H1 H2. rewrite for_each_app. unfold bind. rewrite H1. simpl.
  unfold bind. by rewrite H2.
Qed.

Lemma dispatch_raise_at {L} hass sc (cb : ConnectionCallback L) (st : State L)
    es1 i p es2 st1 st2 e :
  elements (entity_set (extract_entities hass sc))
  = es1 ++ HeosMediaPlayer i p :: es2 →
  for_each es1 (exec_entity cb) (dispatch_start hass sc st) = (Ok tt, st1) →
  cb i (player_id p) (heos_connection p) st1 = (Raise e, st2) →
  async_exec_command hass sc cb st = (Raise e, st2).
Proof.
  intros Hsplit H1 H2. rewrite async_exec_command_unfold, Hsplit.
  by apply for_each_raise_at with st1.
Qed.

Lemma invocations_raise_at {L} hass sc (cb : ConnectionCallback L)
    (st : State L) es1 i p es2 st1 st2 e :
  elements (entity_set (extract_entities hass sc))
  = es1 ++ HeosMediaPlayer i p :: es2 →
  for_each es1 (exec_entity cb) (dispatch_start hass sc st) = (Ok tt, st1) →
  cb i (player_id p) (heos_connection p) st1 = (Raise e, st2) →
  invocations hass sc cb st
  = heos_targets es1 ++ [(i, player_id p, heos_connection p)].
Proof.
  intros Hsplit H1 H2. unfold invocations.
  rewrite async_exec_command_unfold, Hsplit, for_each_app. unfold bind.
  match goal with |- context [for_each es1 _ ?s] =>
    pose proof (recording_faithful cb es1 s) as Hf;
    destruct (for_each_recording_prefix cb es1 s)
      as (called & rest & Hcalled & Hloc & Hok & _);
    destruct (for_each es1 (exec_entity (recording cb)) s) as [o r2] eqn:E
  end.
  simpl in Hf, Hloc, Hok.
  change (for_each es1 (exec_entity cb) (dispatch_start hass sc st)
          = (o, set_locals (locals r2).2 r2)) in Hf.
  rewrite H1 in Hf. injection Hf as <- Hst1.
  rewrite (Hok eq_refl), app_nil_r in Hcalled. subst called.
  simpl. unfold bind.
  rewrite (recording_eq cb i (player_id p) (heos_connection p) r2
             (Raise e) st2) by (by rewrite <-Hst1).
  simpl. by rewrite Hloc.
Qed.

(** X2: the loop stops at the first raise.  When the per-device function
    raises on a player, the loop having returned normally on the entities
    before it, [async_exec_command] ends with that exception in the very
    state the function left: the function was called on the targets up to
    that player, in loop order, and on none of the targets after it. *)
Theorem dispatch_stops_at_first_raise {L} hass sc (cb : ConnectionCallback L)
    (st : State L) es1 i p es2 st1 st2 e :
  elements (entity_set (extract_entities hass sc))
  = es1 ++ HeosMediaPlayer i p :: es2 →
  for_each es1 (exec_entity cb) (dispatch_start hass sc st) = (Ok tt, st1) →
  cb i (player_id p) (heos_connection p) st1 = (Raise e, st2) →
  async_exec_command hass sc cb st = (Raise e, st2)
  ∧ invocations hass sc cb st
    = heos_targets es1 ++ [(i, player_id p, heos_connection p)]
  ∧ resolved_targets hass sc
    = invocations hass sc cb st ++ heos_targets es2.
Proof.
  intros Hsplit H1 H2.
  split; [by apply (dispatch_raise_at hass sc cb st es1 i p es2 st1)|].
  rewrite (invocations_raise_at hass sc cb st es1 i p es2 st1 st2 e)
    by done.
  split; [done|].
  unfold resolved_targets, heos_targets. rewrite Hsplit, omap_app. simpl.
  by rewrite <-app_assoc.
Qed.

Lemma dispatch_stops_at_first_raise_witness :
  async_exec_command example_hass (all_three false) cb_raising initial
  = (Raise (HeosError "unhandled"),
     {| history := [];
        logs := [log_operating {[kitchen; den; lamp]}; log_skipping lamp];
        locals := tt |})
  ∧ invocations example_hass (all_three false) cb_raising initial
    = [("media_player.kitchen", 1, 0%nat)].
Proof.
  destruct (dispatch_stops_at_first_raise example_hass (all_three false)
              cb_raising initial [lamp] "media_player.kitchen"
              {| player_id := 1; heos_connection := 0%nat |} [den]
              {| history := [];
                 logs := [log_operating {[kitchen; den; lamp]};
                          log_skipping lamp];
                 locals := tt |}
              {| history := [];
                 logs := [log_operating {[kitchen; den; lamp]};
                          log_skipping lamp];
                 locals := tt |}
              (HeosError "unhandled"))
    as (Hrun & Hinv & _).
  - vm_compute. reflexivity.
  - vm_compute. reflexivity.
  - reflexivity.
  - split; [exact Hrun|exact Hinv].
Defined.

(** ** One command per device, with the log *)

Section one_command_logged.
Context {L : Type}.
Variable env : Env.
Variable mk : Target → Call.
Variable upd : Target → Reply → L → L.
Variable lg : Target → Reply → list LogRecord.
Variable cb : ConnectionCallback L.

Hypothesis Hcb : ∀ i p c (st : State L),
  let r := env (history st) (mk (i, p, c)) in
  cb i p c st
  = (Ok tt, {| history := history st ++ [(mk (i, p, c), r)];
               logs := logs st ++ lg (i, p, c) r;
               locals := upd (i, p, c) r (locals st) |}).

Lemma for_each_logged (es : list Entity) (st : State L) :
  let outs := device_outcomes env mk (history st) (heos_targets es) in
  for_each es (exec_entity cb) st
  = (Ok tt, {| history := history st ++ map (λ o, (mk o.1, o.2)) outs;
               logs := logs st ++ dispatch_logs lg es outs;
               locals := foldl (λ l o, upd o.1 o.2 l) (locals st) outs |}).
Proof.
  revert st. induction es as [|e es IH]; intros st; simpl.
  - rewrite !app_nil_r. by destruct st.
  - destruct e as [i p|i]; simpl.
    + unfold bind. rewrite Hcb. rewrite IH. simpl.
      by rewrite <-!app_assoc.
    + unfold bind. simpl. rewrite IH. simpl. by rewrite <-app_assoc.
Qed.

Lemma dispatch_logged hass sc (st : State L) :
  let entities := entity_set (extract_entities hass sc) in
  let outs := device_outcomes env mk (history st) (resolved_targets hass sc) in
  async_exec_command hass sc cb st
  = (Ok tt, {| history := history st ++ map (λ o, (mk o.1, o.2)) outs;
               logs := logs st ++ log_operating entities
                                  :: dispatch_logs lg (elements entities) outs;
               locals := foldl (λ l o, upd o.1 o.2 l) (locals st) outs |}).
Proof.
  rewrite async_exec_command_unfold, for_each_logged. simpl.
  by rewrite <-app_assoc.
Qed.
End one_command_logged.

Lemma ClearQueue_handler_logged {L} env i p c (st : State L) :
  raises_only_HeosError env →
  let r := env (history st) (clear_queue_call (i, p, c)) in
  ClearQueue.handler env i p c st
  = (Ok tt, {| history := history st ++ [(clear_queue_call (i, p, c), r)];
               logs := logs st ++ ClearQueue_logs (i, p, c) r;
               locals := locals st |}).
Proof.
  intros Henv.
  unfold ClearQueue.handler, try_except_HeosError, bind, command,
    clear_queue_call, ClearQueue_logs, log_on_raise.
  simpl.
  destruct (heos_reply env (history st)
              {| call_connection := c; call_command := "player/clear_queue";
                 call_params := [("pid", PInt p)] |} Henv)
    as [[resp E]|[m E]]; rewrite E; simpl; [|done].
  by rewrite app_nil_r.
Qed.

Lemma GetQueue_handler_logged env i p c (st : State GetQueue.Locals) :
  raises_only_HeosError env →
  let r := env (history st) (get_queue_call (i, p, c)) in
  GetQueue.handler env i p c st
  = (Ok tt, {| history := history st ++ [(get_queue_call (i, p, c), r)];
               logs := logs st ++ GetQueue_logs (i, p, c) r;
               locals := GetQueue_upd (i, p, c) r (locals st) |}).
Proof.
  intros Henv.
  unfold GetQueue.handler, try_except_HeosError, bind, command,
    get_queue_call, GetQueue_logs, log_on_raise.
  simpl.
  destruct (heos_reply env (history st)
              {| call_connection := c; call_command := "player/get_queue";
                 call_params := [("pid", PInt p)] |} Henv)
    as [[resp E]|[m E]]; rewrite E; simpl; [|done].
  rewrite app_nil_r. destruct (result resp); simpl; [done|].
  by destruct st as [? ? []].
Qed.

Lemma RemoveFromQueue_handler_logged env q i p c (st : State (list string)) :
  raises_only_HeosError env →
  let r := env (history st) (remove_call (PInt q) (i, p, c)) in
  RemoveFromQueue.handler env q i p c st
  = (Ok tt, {| history := history st ++ [(remove_call (PInt q) (i, p, c), r)];
               logs := logs st ++ RemoveFromQueue_logs q (i, p, c) r;
               locals := RemoveFromQueue_upd (i, p, c) r (locals st) |}).
Proof.
  intros Henv.
  unfold RemoveFromQueue.handler, try_except_HeosError, bind, command,
    remove_call, RemoveFromQueue_logs, log_on_raise.
  simpl.
  destruct (heos_reply env (history st)
              {| call_connection := c; call_command := "player/remove_from_queue";
                 call_params := [("pid", PInt p); ("qid", PInt q)] |} Henv)
    as [[resp E]|[m E]]; rewrite E; simpl; [|done].
  by rewrite app_nil_r.
Qed.

(** ** The services, run to the end *)

(** X3: [clear_queue] returns no response; each resolved target is sent
    exactly one [player/clear_queue] with its player id, in loop order, and
    nothing else is sent; an [ERROR] record with the exception is logged for
    each device whose command raised [HeosError], none for a device that
    answered, whatever the result flag of the answer. *)
Theorem clear_queue_run env hass sc (st : State unit) :
  raises_only_HeosError env →
  let entities := entity_set (extract_entities hass sc) in
  let outs := device_outcomes env clear_queue_call (history st)
                (resolved_targets hass sc) in
  ClearQueue.callback env hass sc st
  = (Ok None,
     {| history := history st ++ map (λ o, (clear_queue_call o.1, o.2)) outs;
        logs := logs st ++ log_service_call "clear_queue" sc
                :: log_operating entities
                :: dispatch_logs ClearQueue_logs (elements entities) outs;
        locals := locals st |}).
Proof.
  intros Henv entities outs.
  unfold ClearQueue.callback, bind, debug, log, ret. simpl.
  rewrite (dispatch_logged env clear_queue_call (λ _ _ l, l) ClearQueue_logs
             (ClearQueue.handler env)
             (λ i p c s, ClearQueue_handler_logged env i p c s Henv)).
  simpl. fold entities outs. rewrite <-app_assoc. simpl. f_equal. f_equal.
  clear. induction outs as [|o outs IH]; [done|]. simpl. apply IH.
Qed.

Lemma clear_queue_run_witness :
  ClearQueue.callback env_kitchen_down example_hass (all_three false) initial
  = (Ok None,
     {| history :=
          [(clear_queue_call ("media_player.kitchen", 1, 0%nat),
            Raises (HeosError "connection lost"));
           (clear_queue_call ("media_player.den", 2, 0%nat),
            Returns {| result := true;
                       payload := PQueue [{| qid := 1 |}; {| qid := 2 |}] |})];
        logs :=
          [log_service_call "clear_queue" (all_three false);
           log_operating {[kitchen; den; lamp]};
           log_skipping lamp;
           record ERROR "%s: error when clearing queue for %s"
             [AStr "clear_queue"; AStr "media_player.kitchen"]
             (Some (HeosError "connection lost"))];
        locals := tt |}).
Proof.
  assert (H1 : raises_only_HeosError env_kitchen_down).
  { intros h c e. unfold env_kitchen_down. case_decide; intros [= <-]. done. }
  rewrite (clear_queue_run env_kitchen_down example_hass (all_three false)
             initial H1).
  vm_compute. reflexivity.
Defined.

Lemma GetQueue_run_logged env hass sc (st : State unit) :
  raises_only_HeosError env →
  let entities := entity_set (extract_entities hass sc) in
  let outs := device_outcomes env get_queue_call (history st)
                (resolved_targets hass sc) in
  let final := foldl (λ l o, GetQueue_upd o.1 o.2 l) GetQueue_init outs in
  GetQueue.callback env hass sc st
  = (Ok (Some [("count", VInt (size (GetQueue.queues final)));
               ("queues", VQueues (GetQueue.queues final));
               ("errors", VErrors (GetQueue.errors final))]),
     {| history := history st ++ map (λ o, (get_queue_call o.1, o.2)) outs;
        logs := logs st ++ log_service_call "get_queue" sc
                :: log_operating entities
                :: dispatch_logs GetQueue_logs (elements entities) outs;
        locals := tt |}).
Proof.
  intros Henv entities outs final.
  unfold GetQueue.callback, bind, with_locals, debug, log, get_locals, ret.
  simpl.
  rewrite (dispatch_logged env get_queue_call GetQueue_upd GetQueue_logs
             (GetQueue.handler env)
             (λ i p c s, GetQueue_handler_logged env i p c s Henv)).
  simpl. fold entities outs. unfold set_locals. simpl.
  by rewrite <-app_assoc.
Qed.

Lemma GetQueue_fold_lookup_other l outs k :
  k ∉ map outcome_id outs →
  GetQueue.queues (foldl (λ l o, GetQueue_upd o.1 o.2 l) l outs) !! k
  = GetQueue.queues l !! k.
Proof.
  revert l. induction outs as [|[t r] outs IH]; intros l Hk; [done|].
  simpl in *. apply not_elem_of_cons in Hk as [Hne Hk].
  rewrite IH by done. unfold outcome_id in Hne. simpl in Hne.
  destruct r as [[[] pl]|e]; simpl; [|done|done].
  by rewrite lookup_insert_ne.
Qed.

Lemma GetQueue_fold_lookup l outs t resp :
  NoDup (map outcome_id outs) →
  (t, Returns resp) ∈ outs → result resp = true →
  GetQueue.queues (foldl (λ l o, GetQueue_upd o.1 o.2 l) l outs) !! target_id t
  = Some (payload resp).
Proof.
  revert l. induction outs as [|o outs IH]; intros l Hnd Hin Hres.
  - by apply elem_of_nil in Hin.
  - apply NoDup_cons in Hnd as [Hnotin Hnd].
    apply elem_of_cons in Hin as [<-|Hin].
    + simpl. rewrite GetQueue_fold_lookup_other by done.
      rewrite Hres. simpl. by rewrite lookup_insert_eq.
    + simpl. by apply IH.
Qed.

(** X4: in the response of [get_queue], every device whose
    [player/get_queue] answered with success flag is a key of queues, and the
    value under it is the payload that device sent (entity ids distinct,
    channel raising nothing but [HeosError]). *)
Theorem get_queue_returns_payloads env hass sc (st : State unit) :
  raises_only_HeosError env →
  NoDup (map target_id (resolved_targets hass sc)) →
  let outs := device_outcomes env get_queue_call (history st)
                (resolved_targets hass sc) in
  ∃ n q errs st',
    GetQueue.callback env hass sc st
    = (Ok (Some [("count", VInt n); ("queues", VQueues q);
                 ("errors", VErrors errs)]), st')
    ∧ ∀ t resp, (t, Returns resp) ∈ outs → result resp = true →
        q !! target_id t = Some (payload resp).
Proof.
  intros Henv Hnd outs.
  rewrite (GetQueue_run_logged env hass sc st Henv).
  do 4 eexists. split; [reflexivity|].
  intros t resp Hin Hres. apply GetQueue_fold_lookup; [|done|done].
  unfold outs. by rewrite outcome_ids.
Qed.

Lemma get_queue_returns_payloads_witness :
  ∃ n q errs st',
    GetQueue.callback env_den_unsuccessful example_hass (all_three true) initial
    = (Ok (Some [("count", VInt n); ("queues", VQueues q);
                 ("errors", VErrors errs)]), st')
    ∧ q !! "media_player.kitchen"
      = Some (PQueue [{| qid := 5 |}; {| qid := 6 |}]).
Proof.
  assert (H1 : raises_only_HeosError env_den_unsuccessful).
  { intros h c e. unfold env_den_unsuccessful. case_decide; intros [=]. }
  assert (H2 : NoDup (map target_id
                        (resolved_targets example_hass (all_three true)))).
  { apply (bool_decide_unpack _). vm_compute. exact I. }
  destruct (get_queue_returns_payloads env_den_unsuccessful example_hass
              (all_three true) initial H1 H2)
    as (n & q & errs & st' & Hrun & Hq).
  exists n, q, errs, st'. split; [exact Hrun|].
  refine (Hq ("media_player.kitchen", 1, 0%nat)
            {| result := true;
               payload := PQueue [{| qid := 5 |}; {| qid := 6 |}] |} _ eq_refl).
  vm_compute. left.
Defined.

(** X5: [get_queue] sends exactly one [player/get_queue] per resolved target,
    in loop order, and nothing else; it logs an [ERROR] record with the
    exception for each device whose command raised [HeosError] and no record
    for a device that answered: an answer without success flag leaves no
    trace in the log. *)
Theorem get_queue_commands_and_log env hass sc (st : State unit) :
  raises_only_HeosError env →
  let entities := entity_set (extract_entities hass sc) in
  let outs := device_outcomes env get_queue_call (history st)
                (resolved_targets hass sc) in
  let end_state := (GetQueue.callback env hass sc st).2 in
  history end_state
  = history st ++ map (λ o, (get_queue_call o.1, o.2)) outs
  ∧ logs end_state
    = logs st ++ log_service_call "get_queue" sc
      :: log_operating entities
      :: dispatch_logs GetQueue_logs (elements entities) outs.
Proof.
  intros Henv entities outs end_state. unfold end_state.
  by rewrite (GetQueue_run_logged env hass sc st Henv).
Qed.

Lemma get_queue_commands_and_log_witness :
  logs (GetQueue.callback env_den_unsuccessful example_hass (all_three true)
          initial).2
  = [log_service_call "get_queue" (all_three true);
     log_operating {[kitchen; den; lamp]};
     log_skipping lamp].
Proof.
  assert (H1 : raises_only_HeosError env_den_unsuccessful).
  { intros h c e. unfold env_den_unsuccessful. case_decide; intros [=]. }
  rewrite (proj2 (get_queue_commands_and_log env_den_unsuccessful example_hass
                    (all_three true) initial H1)).
  vm_compute. reflexivity.
Defined.

(** X6: when a call resolves to no HEOS player, [get_queue] answers with
    count 0, no queue and no error, and [remove_from_queue] (with a
    [queue_id]) with an empty errors list when a response is requested;
    neither sends a command, whatever the channel would do. *)
Theorem no_player_empty_aggregates env hass sc (st : State unit) :
  resolved_targets hass sc = [] →
  let got := GetQueue.callback env hass sc st in
  got.1 = Ok (Some [("count", VInt 0); ("queues", VQueues ∅);
                    ("errors", VErrors [])])
  ∧ history got.2 = history st
  ∧ (∀ q, data sc !! "queue_id" = Some q →
       let removed := RemoveFromQueue.callback env hass sc st in
       removed.1 = Ok (if return_response sc
                       then Some [("errors", VErrors [])] else None)
       ∧ history removed.2 = history st).
Proof.
  intros Hnone got. unfold got. split; [|split].
  - unfold GetQueue.callback, bind, with_locals, debug, log, get_locals, ret.
    simpl. by rewrite async_exec_command_unfold, for_each_no_targets.
  - unfold GetQueue.callback, bind, with_locals, debug, log, get_locals, ret.
    simpl. by rewrite async_exec_command_unfold, for_each_no_targets.
  - intros q Hq.
    unfold RemoveFromQueue.callback, bind, debug, log. simpl. rewrite Hq.
    unfold with_locals, bind, get_locals, ret.
    rewrite async_exec_command_unfold, for_each_no_targets by done.
    simpl. by destruct (return_response sc).
Qed.

Lemma no_player_empty_aggregates_witness :
  data lamp_only !! "queue_id" = None
  ∧ (GetQueue.callback env_broken example_hass lamp_only initial).1
    = Ok (Some [("count", VInt 0); ("queues", VQueues ∅);
                ("errors", VErrors [])])
  ∧ (RemoveFromQueue.callback env_broken example_hass remove_seven_lamp
       initial).1
    = Ok (Some [("errors", VErrors [])]).
Proof.
  split; [reflexivity|]. split.
  - refine (proj1 (no_player_empty_aggregates env_broken example_hass
                     lamp_only initial _)).
    vm_compute. reflexivity.
  - refine (proj1 (proj2 (proj2 (no_player_empty_aggregates env_broken
                                   example_hass remove_seven_lamp initial _))
                     7 eq_refl)).
    vm_compute. reflexivity.
Defined.

(** X7: the errors list of [remove_from_queue] names the devices whose
    command raised, in the order of the loop, and no other: with distinct
    entity ids a device is listed exactly when its command raised, so a
    device that answered, even without success flag, is never listed. *)
Theorem remove_from_queue_errors_are_raises env hass sc q (st : State unit) :
  raises_only_HeosError env →
  data sc !! "queue_id" = Some q →
  return_response sc = true →
  NoDup (map target_id (resolved_targets hass sc)) →
  let outs := device_outcomes env (remove_call (PInt q)) (history st)
                (resolved_targets hass sc) in
  ∃ errs st',
    RemoveFromQueue.callback env hass sc st
    = (Ok (Some [("errors", VErrors errs)]), st')
    ∧ errs `sublist_of` map target_id (resolved_targets hass sc)
    ∧ (∀ o, o ∈ outs → outcome_id o ∈ errs ↔ raised o)
    ∧ (∀ t resp, (t, Returns resp) ∈ outs → target_id t ∉ errs).
Proof.
  intros Henv Hq Hresp Hnd outs.
  destruct (RemoveFromQueue_run env hass sc q st Henv Hq) as (st' & Hrun & _).
  fold outs in Hrun. rewrite Hresp in Hrun.
  assert (Hids : NoDup (map outcome_id outs)).
  { unfold outs. by rewrite outcome_ids. }
  exists (map outcome_id (filter raised outs)), st'.
  split; [done|]. split; [|split].
  - rewrite <-(outcome_ids env (remove_call (PInt q)) (history st)).
    apply fmap_sublist, sublist_filter.
  - intros o Ho. by apply outcome_classified.
  - intros t resp Ho.
    change (target_id t) with (outcome_id (t, Returns resp)).
    rewrite outcome_classified by done. unfold raised. simpl. tauto.
Qed.

Lemma remove_from_queue_errors_are_raises_witness :
  ∃ st',
    RemoveFromQueue.callback env_den_unsuccessful example_hass
      (remove_seven true) initial
    = (Ok (Some [("errors", VErrors [])]), st').
Proof.
  assert (H1 : raises_only_HeosError env_den_unsuccessful).
  { intros h c e. unfold env_den_unsuccessful. case_decide; intros [=]. }
  assert (H2 : NoDup (map target_id
                        (resolved_targets example_hass (remove_seven true)))).
  { apply (bool_decide_unpack _). vm_compute. exact I. }
  destruct (remove_from_queue_errors_are_raises env_den_unsuccessful
              example_hass (remove_seven true) 7 initial H1 eq_refl eq_refl H2)
    as (errs & st' & Hrun & _).
  assert (Herrs : errs = []).
  { assert (H := f_equal fst Hrun). vm_compute in H. by injection H. }
  subst errs. exists st'. exact Hrun.
Defined.

(** ** More on [ClearQueueExceptNowPlaying.handler] *)

(** X8: when [player/get_queue] raises [HeosError] or answers without
    success flag, the handler stops there and returns normally: that one
    command is all it sent, and it logged one record, the exception or a
    warning, naming the player. *)
Theorem clear_except_queue_fetch_failure {L} env i p c (st : State L) :
  let r1 := env (history st) (get_queue_call (i, p, c)) in
  fetch_failed r1 →
  ClearQueueExceptNowPlaying.handler env i p c st
  = (Ok tt,
     {| history := history st ++ [(get_queue_call (i, p, c), r1)];
        logs := logs st ++
          [log_fetch_failure "%s: error with player/get_queue for %s"
             "%s: player/get_queue failed for player %s" i r1];
        locals := locals st |}).
Proof.
  intros r1 Hfail. unfold r1 in *.
  unfold ClearQueueExceptNowPlaying.handler, try_except_HeosError, bind,
    command, get_queue_call in *.
  simpl in *.
  destruct (env _ _) as [resp|[m|cls]]; simpl in *; [|done|done].
  by rewrite Hfail.
Qed.

Lemma clear_except_queue_fetch_failure_witness :
  map fst (history (ClearQueueExceptNowPlaying.handler env_unsuccessful
                      "media_player.kitchen" 1 0%nat initial).2)
  = [get_queue_call ("media_player.kitchen", 1, 0%nat)].
Proof.
  rewrite (clear_except_queue_fetch_failure env_unsuccessful
             "media_player.kitchen" 1 0%nat initial eq_refl).
  reflexivity.
Defined.

(** X9: with more than one fetched entry, when
    [player/get_now_playing_media] raises [HeosError] or answers without
    success flag, the handler stops and returns normally, having sent the two
    fetches only: nothing is removed from a queue whose playing entry is not
    known. *)
Theorem clear_except_now_playing_failure {L} env i p c (st : State L) resp q :
  let t := (i, p, c) in
  let h1 := history st ++ [(get_queue_call t, Returns resp)] in
  let r2 := env h1 (get_now_playing_call t) in
  env (history st) (get_queue_call t) = Returns resp →
  result resp = true → payload resp = PQueue q → (1 < length q)%nat →
  fetch_failed r2 →
  ClearQueueExceptNowPlaying.handler env i p c st
  = (Ok tt,
     {| history := h1 ++ [(get_now_playing_call t, r2)];
        logs := logs st ++
          [log_fetch_failure
             "%s: error with player/get_now_playing_media for player %s"
             "%s: player/get_now_playing_media failed for player %s" i r2];
        locals := locals st |}).
Proof.
  intros t h1 r2 Hr1 Hres1 Hp1 Hlen Hfail. unfold r2, h1, t in *.
  unfold ClearQueueExceptNowPlaying.handler, try_except_HeosError, bind,
    command, lift, get_queue_call, get_now_playing_call in *.
  simpl in *. rewrite Hr1. simpl. rewrite Hres1. simpl. rewrite Hp1. simpl.
  destruct (Nat.leb_spec (length q) 1) as [Hle|_]; [lia|]. simpl.
  destruct (env _ _) as [resp2|[m|cls]]; simpl in *; [|done|done].
  by rewrite Hfail.
Qed.

Lemma clear_except_now_playing_failure_witness :
  map (λ cr, call_command cr.1)
    (history (ClearQueueExceptNowPlaying.handler env_now_playing_down
                "media_player.kitchen" 1 0%nat initial).2)
  = ["player/get_queue"; "player/get_now_playing_media"].
Proof.
  rewrite (clear_except_now_playing_failure env_now_playing_down
             "media_player.kitchen" 1 0%nat initial
             {| result := true;
                payload := PQueue [{| qid := 1 |}; {| qid := 2 |}] |}
             [{| qid := 1 |}; {| qid := 2 |}]
             eq_refl eq_refl eq_refl ltac:(simpl; lia) I).
  reflexivity.
Defined.

Lemma ClearQueueExceptNowPlaying_no_payload {L} env i p c (st : State L) resp :
  env (history st) (get_queue_call (i, p, c)) = Returns resp →
  result resp = true → payload resp = PNone →
  ClearQueueExceptNowPlaying.handler env i p c st
  = (Raise (PyError "TypeError"),
     {| history := history st ++ [(get_queue_call (i, p, c), Returns resp)];
        logs := logs st;
        locals := locals st |}).
Proof.
  intros Hr1 Hres1 Hp1.
  unfold ClearQueueExceptNowPlaying.handler, try_except_HeosError, bind,
    command, lift, get_queue_call in *.
  simpl in *. rewrite Hr1. simpl. rewrite Hres1. simpl. by rewrite Hp1.
Qed.

(** X10: the handler does not check the payload: when [player/get_queue]
    answers with success flag and no payload, [len] fails with a [TypeError]
    that no [except] clause of the handler catches; the handler raises after
    that one command, with nothing logged.  The exception leaves the service
    call: when this happens for a player of a call, the loop having returned
    normally on the entities before it, [callback] ends with that
    [TypeError] in the state the handler left, the later players untouched. *)
Theorem clear_except_missing_payload_raises env :
  (∀ L i p c (st : State L) resp,
     env (history st) (get_queue_call (i, p, c)) = Returns resp →
     result resp = true → payload resp = PNone →
     ClearQueueExceptNowPlaying.handler env i p c st
     = (Raise (PyError "TypeError"),
        {| history := history st ++ [(get_queue_call (i, p, c), Returns resp)];
           logs := logs st;
           locals := locals st |}))
  ∧ (∀ hass sc (st : State unit) es1 i p es2 st1 resp,
       let t := (i, player_id p, heos_connection p) in
       elements (entity_set (extract_entities hass sc))
       = es1 ++ HeosMediaPlayer i p :: es2 →
       for_each es1 (exec_entity (ClearQueueExceptNowPlaying.handler env))
         (callback_start "clear_queue_except_now_playing" hass sc st)
       = (Ok tt, st1) →
       env (history st1) (get_queue_call t) = Returns resp →
       result resp = true → payload resp = PNone →
       ClearQueueExceptNowPlaying.callback env hass sc st
       = (Raise (PyError "TypeError"),
          {| history := history st1 ++ [(get_queue_call t, Returns resp)];
             logs := logs st1;
             locals := locals st1 |})).
Proof.
  split.
  - intros L i p c st resp. apply ClearQueueExceptNowPlaying_no_payload.
  - intros hass sc st es1 i p es2 st1 resp t Hsplit Hloop Hr Hres Hp.
    unfold ClearQueueExceptNowPlaying.callback, bind, debug, log. simpl.
    match goal with |- context [async_exec_command hass sc ?cb ?s] =>
      rewrite (dispatch_raise_at hass sc cb s es1 i p es2 st1
                 {| history := history st1 ++ [(get_queue_call t, Returns resp)];
                    logs := logs st1; locals := locals st1 |}
                 (PyError "TypeError") Hsplit Hloop)
    end.
    + done.
    + by apply ClearQueueExceptNowPlaying_no_payload.
Qed.

Lemma clear_except_missing_payload_raises_witness :
  (ClearQueueExceptNowPlaying.handler env_no_payload
     "media_player.kitchen" 1 0%nat initial).1
  = Raise (PyError "TypeError")
  ∧ ClearQueueExceptNowPlaying.callback env_no_payload example_hass
      (all_three false) initial
    = (Raise (PyError "TypeError"),
       {| history :=
            [(get_queue_call ("media_player.kitchen", 1, 0%nat),
              Returns {| result := true; payload := PNone |})];
          logs :=
            [log_service_call "clear_queue_except_now_playing"
               (all_three false);
             log_operating {[kitchen; den; lamp]};
             log_skipping lamp];
          locals := tt |}).
Proof.
  destruct (clear_except_missing_payload_raises env_no_payload)
    as [Hhandler Hcallback].
  split.
  - rewrite (Hhandler _ "media_player.kitchen" 1 0%nat initial
               {| result := true; payload := PNone |}
               eq_refl eq_refl eq_refl).
    reflexivity.
  - rewrite (Hcallback example_hass (all_three false) initial [lamp]
               "media_player.kitchen"
               {| player_id := 1; heos_connection := 0%nat |} [den]
               {| history := [];
                  logs :=
                    [log_service_call "clear_queue_except_now_playing"
                       (all_three false);
                     log_operating {[kitchen; den; lamp]};
                     log_skipping lamp];
                  locals := tt |}
               {| result := true; payload := PNone |}).
    + reflexivity.
    + vm_compute. reflexivity.
    + vm_compute. reflexivity.
    + reflexivity.
    + reflexivity.
    + reflexivity.
Defined.

Lemma filter_ne_length (l : list Z) (x : Z) :
  NoDup l → x ∈ l → length (filter (λ z, z ≠ x) l) = (length l - 1)%nat.
Proof.
  induction 1 as [|y l Hnotin Hnd IH]; intros Hin.
  - by apply elem_of_nil in Hin.
  - rewrite filter_cons. destruct (decide (y ≠ x)) as [Hne|Heq].
    + apply elem_of_cons in Hin as [->|Hin]; [done|].
      simpl. rewrite IH by done. destruct l; [by apply elem_of_nil in Hin|].
      simpl. lia.
    + apply dec_stable in Heq. subst y. simpl. rewrite Nat.sub_0_r.
      clear IH Hin Hnd. induction l as [|z l IH]; [done|].
      apply not_elem_of_cons in Hnotin as [Hne Hnotin].
      rewrite filter_cons. destruct (decide (z ≠ x)); [|done].
      simpl. by rewrite IH.
Qed.

Lemma filter_ne_absent (l : list Z) (x : Z) :
  x ∉ l → filter (λ z, z ≠ x) l = l.
Proof.
  induction l as [|z l IH]; intros Hnotin; [done|].
  apply not_elem_of_cons in Hnotin as [Hne Hnotin].
  rewrite filter_cons. destruct (decide (z ≠ x)); [|done].
  by rewrite IH.
Qed.

(** The third command of a run that got as far as the removal. *)
Lemma ClearQueueExceptNowPlaying_third {L} env i p c (st : State L)
    resp q resp2 now :
  let t := (i, p, c) in
  let h1 := history st ++ [(get_queue_call t, Returns resp)] in
  let h2 := h1 ++ [(get_now_playing_call t, Returns resp2)] in
  let removal :=
    remove_call
      (PStr (String.concat "," (map str (ids_to_remove q (np_qid now))))) t in
  env (history st) (get_queue_call t) = Returns resp →
  result resp = true → payload resp = PQueue q → (1 < length q)%nat →
  env h1 (get_now_playing_call t) = Returns resp2 →
  result resp2 = true → payload resp2 = PNowPlaying now →
  history (ClearQueueExceptNowPlaying.handler env i p c st).2
    !! (length (history st) + 2)%nat
  = Some (removal, env h2 removal).
Proof.
  intros t h1 h2 removal Hr1 Hres1 Hp1 Hlen Hr2 Hres2 Hp2.
  rewrite (ClearQueueExceptNowPlaying_run env i p c st resp q resp2 now
             Hr1 Hres1 Hp1 Hlen Hr2 Hres2 Hp2).
  fold t h1 h2 removal.
  assert (Hthird : ∀ rest,
    ((h2 ++ [(removal, env h2 removal)]) ++ rest)
      !! (length (history st) + 2)%nat = Some (removal, env h2 removal)).
  { intros rest. unfold h2, h1. rewrite <-!app_assoc.
    rewrite lookup_app_r by lia.
    by replace (length (history st) + 2 - length (history st))%nat
      with 2%nat by lia. }
  destruct (env h2 removal) as [resp3|[m3|cls3]]; simpl history.
  - apply Hthird.
  - apply Hthird.
  - rewrite <-(app_nil_r (h2 ++ _)). apply Hthird.
Qed.

(** X11: when the fetched entries have distinct ids and the playing one is
    among them, the removal names all the others and only them: one id fewer
    than the queue has entries, never the playing one. *)
Theorem clear_except_keeps_playing_entry {L} env i p c (st : State L)
    resp q resp2 now :
  let t := (i, p, c) in
  let h1 := history st ++ [(get_queue_call t, Returns resp)] in
  let h2 := h1 ++ [(get_now_playing_call t, Returns resp2)] in
  env (history st) (get_queue_call t) = Returns resp →
  result resp = true → payload resp = PQueue q → (1 < length q)%nat →
  env h1 (get_now_playing_call t) = Returns resp2 →
  result resp2 = true → payload resp2 = PNowPlaying now →
  NoDup (map qid q) → np_qid now ∈ map qid q →
  ∃ ids r3,
    history (ClearQueueExceptNowPlaying.handler env i p c st).2
      !! (length (history st) + 2)%nat
    = Some (remove_call (PStr (String.concat "," (map str ids))) t, r3)
    ∧ length ids = (length q - 1)%nat
    ∧ (np_qid now ∉ ids)
    ∧ (∀ z, z ∈ map qid q → z ≠ np_qid now → z ∈ ids).
Proof.
  intros t h1 h2 Hr1 Hres1 Hp1 Hlen Hr2 Hres2 Hp2 Hnd Hin.
  exists (ids_to_remove q (np_qid now)). eexists. split.
  { by apply (ClearQueueExceptNowPlaying_third env i p c st resp q resp2 now). }
  unfold ids_to_remove. split; [|split].
  - rewrite filter_ne_length by done. by rewrite length_map.
  - rewrite list_elem_of_filter. tauto.
  - intros z Hz Hne. by apply list_elem_of_filter.
Qed.

Lemma clear_except_keeps_playing_entry_witness :
  ∃ ids r3,
    history (ClearQueueExceptNowPlaying.handler env_removal_refused
               "media_player.kitchen" 1 0%nat initial).2 !! 2%nat
    = Some (remove_call (PStr (String.concat "," (map str ids)))
              ("media_player.kitchen", 1, 0%nat), r3)
    ∧ length ids = 2%nat.
Proof.
  destruct (clear_except_keeps_playing_entry env_removal_refused
              "media_player.kitchen" 1 0%nat initial
              {| result := true;
                 payload := PQueue [{| qid := 1 |}; {| qid := 2 |};
                                    {| qid := 3 |}] |}
              [{| qid := 1 |}; {| qid := 2 |}; {| qid := 3 |}]
              {| result := true;
                 payload := PNowPlaying {| type := song; np_qid := 2 |} |}
              {| type := song; np_qid := 2 |}
              eq_refl eq_refl eq_refl ltac:(simpl; lia)
              eq_refl eq_refl eq_refl)
    as (ids & r3 & Hthird & Hlen & _).
  - apply (bool_decide_unpack _). vm_compute. exact I.
  - apply (bool_decide_unpack _). vm_compute. exact I.
  - exists ids, r3. split; [exact Hthird|exact Hlen].
Defined.

(** X12: when the playing id is not among the fetched entries (the queue
    changed between the two fetches, or the player reports an id that is not
    in the queue), the removal names every fetched entry: the handler asks
    the player to empty the queue. *)
Theorem clear_except_playing_not_in_queue {L} env i p c (st : State L)
    resp q resp2 now :
  let t := (i, p, c) in
  let h1 := history st ++ [(get_queue_call t, Returns resp)] in
  let h2 := h1 ++ [(get_now_playing_call t, Returns resp2)] in
  let removal :=
    remove_call (PStr (String.concat "," (map str (map qid q)))) t in
  env (history st) (get_queue_call t) = Returns resp →
  result resp = true → payload resp = PQueue q → (1 < length q)%nat →
  env h1 (get_now_playing_call t) = Returns resp2 →
  result resp2 = true → payload resp2 = PNowPlaying now →
  np_qid now ∉ map qid q →
  history (ClearQueueExceptNowPlaying.handler env i p c st).2
    !! (length (history st) + 2)%nat
  = Some (removal, env h2 removal).
Proof.
  intros t h1 h2 removal Hr1 Hres1 Hp1 Hlen Hr2 Hres2 Hp2 Hnotin.
  rewrite (ClearQueueExceptNowPlaying_third env i p c st resp q resp2 now)
    by done.
  unfold removal, ids_to_remove. by rewrite filter_ne_absent.
Qed.

Lemma clear_except_playing_not_in_queue_witness :
  fst <$> history (ClearQueueExceptNowPlaying.handler env_playing_elsewhere
                     "media_player.kitchen" 1 0%nat initial).2 !! 2%nat
  = Some (remove_call (PStr "1,2") ("media_player.kitchen", 1, 0%nat)).
Proof.
  refine (f_equal (fmap fst)
            (clear_except_playing_not_in_queue env_playing_elsewhere
               "media_player.kitchen" 1 0%nat initial
               {| result := true;
                  payload := PQueue [{| qid := 1 |}; {| qid := 2 |}] |}
               [{| qid := 1 |}; {| qid := 2 |}]
               {| result := true;
                  payload := PNowPlaying {| type := station; np_qid := 9 |} |}
               {| type := station; np_qid := 9 |}
               eq_refl eq_refl eq_refl _ eq_refl eq_refl eq_refl _)).
  - simpl. lia.
  - apply (bool_decide_unpack _). vm_compute. exact I.
Defined.

(** Close a leaf of the case analysis on the replies: the commands sent so
    far are the first [n] of the script. *)
Local Ltac sent_leaf :=
  solve [ eexists _, 1%nat, EmptyString; split_and!;
          [by rewrite <-?app_assoc|lia|lia|reflexivity|reflexivity]
        | eexists _, 2%nat, EmptyString; split_and!;
          [by rewrite <-?app_assoc|lia|lia|reflexivity|reflexivity]
        | eexists _, 3%nat, _; split_and!;
          [by rewrite <-?app_assoc|lia|lia|reflexivity|reflexivity]
        | eexists _, 4%nat, _; split_and!;
          [by rewrite <-?app_assoc|lia|lia|reflexivity|reflexivity] ].

Local Ltac next_reply env :=
  match goal with
  | |- context [(length ?q <=? 1)%nat] => destruct (length q <=? 1)%nat
  | |- context [bool_decide ?P] => destruct (bool_decide P)
  | |- context [env ?h ?c] =>
      destruct (env h c) as [[[] [| |]]|[|]]
  end; simpl.

Lemma ClearQueueExceptNowPlaying_sent {L} env i p c (st : State L) :
  ∃ sent n qids,
    history (ClearQueueExceptNowPlaying.handler env i p c st).2
    = history st ++ sent
    ∧ (1 ≤ n ≤ 4)%nat
    ∧ map fst sent = take n (command_script (i, p, c) qids)
    ∧ locals (ClearQueueExceptNowPlaying.handler env i p c st).2 = locals st.
Proof.
  unfold ClearQueueExceptNowPlaying.handler, try_except_HeosError, bind,
    command, lift, command_script, get_queue_call, get_now_playing_call,
    remove_call.
  simpl.
  repeat (first [sent_leaf | next_reply env]).
Qed.

(** X13: whatever the player answers, the handler sends between one and four
    commands to that player, always the initial stretch of: fetch the queue,
    fetch the playing entry, remove, fetch the playing entry again.  It never
    sends [player/clear_queue], never removes twice, and leaves the locals of
    its caller alone. *)
Theorem clear_except_command_order {L} env i p c (st : State L) :
  ∃ sent n qids,
    history (ClearQueueExceptNowPlaying.handler env i p c st).2
    = history st ++ sent
    ∧ (1 ≤ n ≤ 4)%nat
    ∧ map fst sent = take n (command_script (i, p, c) qids)
    ∧ locals (ClearQueueExceptNowPlaying.handler env i p c st).2 = locals st.
Proof. apply ClearQueueExceptNowPlaying_sent. Qed.

(** X14: the check after the removal only logs.  When the playing entry is
    fetched again, the handler returns normally whatever its id is; an id
    other than 1 adds one [ERROR] record and nothing else. *)
Theorem clear_except_check_only_logs {L} env i p c (st : State L)
    resp q resp2 now resp4 now4 :
  let t := (i, p, c) in
  let h1 := history st ++ [(get_queue_call t, Returns resp)] in
  let h2 := h1 ++ [(get_now_playing_call t, Returns resp2)] in
  let qids := String.concat "," (map str (ids_to_remove q (np_qid now))) in
  let removal := remove_call (PStr qids) t in
  let h3 := h2 ++ [(removal, env h2 removal)] in
  raises_only_HeosError env →
  env (history st) (get_queue_call t) = Returns resp →
  result resp = true → payload resp = PQueue q → (1 < length q)%nat →
  env h1 (get_now_playing_call t) = Returns resp2 →
  result resp2 = true → payload resp2 = PNowPlaying now →
  env h3 (get_now_playing_call t) = Returns resp4 →
  result resp4 = true → payload resp4 = PNowPlaying now4 →
  ClearQueueExceptNowPlaying.handler env i p c st
  = (Ok tt,
     {| history := h3 ++ [(get_now_playing_call t, Returns resp4)];
        logs := logs st ++ [log_now_playing i (np_qid now);
                            log_removing i qids;
                            log_after_maintenance i (np_qid now4)]
                ++ (if decide (np_qid now4 = 1) then [] else [log_not_head i]);
        locals := locals st |}).
Proof.
  intros t h1 h2 qids removal h3 Henv Hr1 Hres1 Hp1 Hlen Hr2 Hres2 Hp2
    Hr4 Hres4 Hp4.
  rewrite (ClearQueueExceptNowPlaying_run env i p c st resp q resp2 now
             Hr1 Hres1 Hp1 Hlen Hr2 Hres2 Hp2).
  fold t h1 h2 qids removal.
  destruct (heos_reply env h2 removal Henv) as [[resp3 E]|[m3 E]];
    unfold h3 in *; rewrite E in *; rewrite Hr4;
    unfold after_maintenance_outcome, after_maintenance_logs;
    rewrite Hres4, Hp4; simpl;
    (case_bool_decide; destruct (decide (np_qid now4 = 1)); done).
Qed.

Lemma clear_except_check_only_logs_witness :
  (ClearQueueExceptNowPlaying.handler env_not_renumbered
     "media_player.kitchen" 1 0%nat initial).1 = Ok tt
  ∧ logs (ClearQueueExceptNowPlaying.handler env_not_renumbered
            "media_player.kitchen" 1 0%nat initial).2
    = [log_now_playing "media_player.kitchen" 2;
       log_removing "media_player.kitchen" "1";
       log_after_maintenance "media_player.kitchen" 2;
       log_not_head "media_player.kitchen"].
Proof.
  assert (H1 : raises_only_HeosError env_not_renumbered).
  { intros h c e. unfold env_not_renumbered. case_decide; intros [=]. }
  rewrite (clear_except_check_only_logs env_not_renumbered
             "media_player.kitchen" 1 0%nat initial
             {| result := true;
                payload := PQueue [{| qid := 1 |}; {| qid := 2 |}] |}
             [{| qid := 1 |}; {| qid := 2 |}]
             {| result := true;
                payload := PNowPlaying {| type := song; np_qid := 2 |} |}
             {| type := song; np_qid := 2 |}
             {| result := true;
                payload := PNowPlaying {| type := song; np_qid := 2 |} |}
             {| type := song; np_qid := 2 |}
             H1 eq_refl eq_refl eq_refl ltac:(simpl; lia)
             eq_refl eq_refl eq_refl eq_refl eq_refl eq_refl).
  split; reflexivity.
Defined.

Lemma for_each_sent_bounds {L} (P : Call * Reply → Prop)
    (cb : ConnectionCallback L) es (st : State L) :
  never_raises cb →
  (∀ i p c s, ∃ sent, history (cb i p c s).2 = history s ++ sent
                      ∧ (1 ≤ length sent ≤ 4)%nat ∧ Forall P sent) →
  (for_each es (exec_entity cb) st).1 = Ok tt
  ∧ ∃ sent, history (for_each es (exec_entity cb) st).2 = history st ++ sent
            ∧ (length (heos_targets es) ≤ length sent
               ≤ 4 * length (heos_targets es))%nat
            ∧ Forall P sent.
Proof.
  intros Hok Hcb. revert st. induction es as [|e es IH]; intros st; simpl.
  - split; [done|]. exists []. rewrite app_nil_r. simpl. split_and!; done || lia.
  - unfold bind. destruct e as [i p|i]; simpl.
    + specialize (Hok i (player_id p) (heos_connection p) st).
      destruct (Hcb i (player_id p) (heos_connection p) st)
        as (sent1 & Hh1 & Hlen1 & HP1).
      destruct (cb i (player_id p) (heos_connection p) st) as [o st1].
      simpl in *. subst o.
      destruct (IH st1) as (Hout & sent2 & Hh2 & Hlen2 & HP2).
      split; [done|]. exists (sent1 ++ sent2).
      rewrite Hh2, Hh1, <-app_assoc, length_app.
      split_and!; [done|lia|lia|by apply Forall_app].
    + match goal with |- context [for_each es _ ?s] => apply (IH s) end.
Qed.

Lemma command_script_commands t qids n (sent : list (Call * Reply)) :
  map fst sent = take n (command_script t qids) →
  Forall maintenance_command sent.
Proof.
  intros Hsent.
  assert (Hscript : Forall (λ c, call_command c
                      ∈ ["player/get_queue"; "player/get_now_playing_media";
                         "player/remove_from_queue"])
                      (command_script t qids)).
  { unfold command_script. repeat constructor. }
  apply (Forall_take _ n) in Hscript. rewrite <-Hsent in Hscript.
  by apply Forall_fmap in Hscript.
Qed.

(** X15: [clear_queue_except_now_playing] returns no response, and over N
    resolved targets it sends at least N and at most 4 N commands, none of
    them other than [player/get_queue], [player/get_now_playing_media] and
    [player/remove_from_queue] (channel raising nothing but [HeosError],
    payloads of the protocol's shapes). *)
Theorem clear_except_callback_bounds env hass sc (st : State unit) :
  raises_only_HeosError env → typed_payloads env →
  let out := ClearQueueExceptNowPlaying.callback env hass sc st in
  let N := length (resolved_targets hass sc) in
  out.1 = Ok None
  ∧ ∃ sent, history out.2 = history st ++ sent
            ∧ (N ≤ length sent ≤ 4 * N)%nat
            ∧ Forall maintenance_command sent.
Proof.
  intros Henv Htyped out N. unfold out, N.
  unfold ClearQueueExceptNowPlaying.callback, bind, debug, log, ret. simpl.
  rewrite async_exec_command_unfold.
  match goal with |- context [for_each ?es ?f ?s] =>
    destruct (for_each_sent_bounds maintenance_command
                (ClearQueueExceptNowPlaying.handler env) es s)
      as (Hout & sent & Hh & Hlen & HP);
    [by apply ClearQueueExceptNowPlaying_never_raises| |
     destruct (for_each es f s) as [o st1] eqn:E]
  end.
  - intros i p c s.
    destruct (ClearQueueExceptNowPlaying_sent env i p c s)
      as (sent & n & qids & Hh & Hn & Hsent & _).
    exists sent. split; [done|]. split.
    + rewrite <-(length_map fst), Hsent, length_take. simpl. lia.
    + by apply (command_script_commands (i, p, c) qids n).
  - simpl in *. subst o. split; [done|]. by exists sent.
Qed.

Lemma clear_except_callback_bounds_witness :
  (ClearQueueExceptNowPlaying.callback env_removal_refused example_hass
     (all_three false) initial).1 = Ok None
  ∧ length (history (ClearQueueExceptNowPlaying.callback env_removal_refused
                       example_hass (all_three false) initial).2) = 8%nat.
Proof.
  assert (H1 : raises_only_HeosError env_removal_refused).
  { intros h c e. unfold env_removal_refused.
    repeat case_decide; intros [= <-]; done. }
  assert (H2 : typed_payloads env_removal_refused).
  { intros h c r Hr _. unfold env_removal_refused in Hr.
    repeat case_decide; simplify_eq; simpl; (split; intros Hc);
      try congruence; eauto. }
  split.
  - exact (proj1 (clear_except_callback_bounds env_removal_refused
                    example_hass (all_three false) initial H1 H2)).
  - vm_compute. reflexivity.
Defined.

(** ** Registration *)

(** X16: [async_setup_entry] returns [True] and sends nothing; afterwards
    each of the four service names resolves, under the integration's domain,
    to the service of its own class (callback, schema, response mode), every
    other entry of the registry is as it was, and setting up a second time
    changes nothing. *)
Theorem setup_registers_services (DOMAIN : string) (env : Env)
    (hass : HomeAssistant) (st : State (gmap (string * string) Service)) :
  let out := async_setup_entry DOMAIN env hass st in
  out.1 = Ok true
  ∧ history out.2 = history st
  ∧ Forall (λ s, locals out.2 !! (DOMAIN, service_name s) = Some s)
      [ClearQueue_class env hass; ClearQueueExceptNowPlaying_class env hass;
       GetQueue_class env hass; RemoveFromQueue_class env hass]
  ∧ (∀ d n, (d, n) ∉ map (λ n', (DOMAIN, n')) service_names →
       locals out.2 !! (d, n) = locals st !! (d, n))
  ∧ locals (async_setup_entry DOMAIN env hass out.2).2 = locals out.2.
Proof.
  intros out.
  assert (Hreg : ∀ st' : State (gmap (string * string) Service),
    locals (async_setup_entry DOMAIN env hass st').2
    = <[(DOMAIN, "remove_from_queue") := RemoveFromQueue_class env hass]>
        (<[(DOMAIN, "get_queue") := GetQueue_class env hass]>
           (<[(DOMAIN, "clear_queue_except_now_playing")
              := ClearQueueExceptNowPlaying_class env hass]>
              (<[(DOMAIN, "clear_queue") := ClearQueue_class env hass]>
                 (locals st'))))) by reflexivity.
  split; [reflexivity|]. split; [reflexivity|].
  unfold out. rewrite !Hreg. split; [|split].
  - repeat apply Forall_cons_2; [..|apply Forall_nil_2]; cbv beta.
    + change (service_name (ClearQueue_class env hass)) with "clear_queue".
      do 3 (rewrite lookup_insert_ne by (intros Hk; discriminate Hk)).
      apply lookup_insert_eq.
    + change (service_name (ClearQueueExceptNowPlaying_class env hass))
        with "clear_queue_except_now_playing".
      do 2 (rewrite lookup_insert_ne by (intros Hk; discriminate Hk)).
      apply lookup_insert_eq.
    + change (service_name (GetQueue_class env hass)) with "get_queue".
      rewrite lookup_insert_ne by (intros Hk; discriminate Hk).
      apply lookup_insert_eq.
    + apply lookup_insert_eq.
  - intros d n Hnotin. unfold service_names in Hnotin.
    rewrite !fmap_cons, fmap_nil, !not_elem_of_cons in Hnotin.
    destruct Hnotin as (H1 & H2 & H3 & H4 & _).
    rewrite !lookup_insert_ne by congruence. reflexivity.
  - generalize (ClearQueue_class env hass)
      (ClearQueueExceptNowPlaying_class env hass) (GetQueue_class env hass)
      (RemoveFromQueue_class env hass).
    intros s1 s2 s3 s4.
    apply map_eq. intros k. rewrite !lookup_insert.
    repeat case_decide; reflexivity || congruence.
Qed.

(** ** [GetQueue] when the channel breaks *)

Lemma GetQueue_handler_reply env i p c (st : State GetQueue.Locals) :
  let r := env (history st) (get_queue_call (i, p, c)) in
  (GetQueue.handler env i p c st).1
  = match r with Raises (PyError cls) => Raise (PyError cls) | _ => Ok tt end
  ∧ history (GetQueue.handler env i p c st).2
    = history st ++ [(get_queue_call (i, p, c), r)].
Proof.
  unfold GetQueue.handler, try_except_HeosError, bind, command, get_queue_call.
  simpl.
  destruct (env _ _) as [[[] pl]|[m|cls]]; done.
Qed.

Lemma GetQueue_loop_breaks env es (st : State GetQueue.Locals)
    good t cls rest :
  device_outcomes env get_queue_call (history st) (heos_targets es)
  = good ++ (t, Raises (PyError cls)) :: rest →
  Forall (λ o, ∀ cls', o.2 ≠ Raises (PyError cls')) good →
  (for_each es (exec_entity (GetQueue.handler env)) st).1
  = Raise (PyError cls)
  ∧ history (for_each es (exec_entity (GetQueue.handler env)) st).2
    = history st ++ map (λ o, (get_queue_call o.1, o.2))
                      (good ++ [(t, Raises (PyError cls))]).
Proof.
  revert st good. induction es as [|e es IH]; intros st good Houts Hgood.
  - by destruct good.
  - destruct e as [i p|i]; simpl in *.
    + destruct (GetQueue_handler_reply env i (player_id p)
                  (heos_connection p) st) as [Hout Hh].
      unfold bind.
      destruct (GetQueue.handler env i (player_id p) (heos_connection p) st)
        as [o st1] eqn:E.
      simpl in Hout, Hh.
      destruct good as [|g good]; simpl in Houts.
      * injection Houts as Ht Hr Hrest. rewrite Hr in Hout, Hh. subst o.
        simpl. split; [done|]. by rewrite Hh, Ht.
      * injection Houts as Hg Hrest.
        apply Forall_cons in Hgood as [Hg1 Hgood].
        rewrite <-Hg in Hg1. simpl in Hg1.
        assert (o = Ok tt) as ->.
        { rewrite Hout. destruct (env _ _) as [?|[?|cls0]]; try done.
          by destruct (Hg1 cls0). }
        rewrite <-Hh in Hrest.
        destruct (IH st1 good Hrest Hgood) as [Hout' Hh'].
        split; [done|]. rewrite Hh', Hh, <-Hg. simpl.
        by rewrite <-app_assoc.
    + unfold bind. simpl.
      match goal with |- context [for_each es _ ?s] =>
        apply (IH s good Houts Hgood) end.
Qed.

(** X17: [get_queue] gives all or nothing.  When the channel raises, for some
    device, an exception that is no [HeosError], the call ends with that
    exception right after that command: no response is returned, the queues
    already fetched are lost, and the devices after it are never asked. *)
Theorem get_queue_loses_partial_results env hass sc (st : State unit)
    good t cls rest :
  device_outcomes env get_queue_call (history st) (resolved_targets hass sc)
  = good ++ (t, Raises (PyError cls)) :: rest →
  Forall (λ o, ∀ cls', o.2 ≠ Raises (PyError cls')) good →
  (GetQueue.callback env hass sc st).1 = Raise (PyError cls)
  ∧ history (GetQueue.callback env hass sc st).2
    = history st ++ map (λ o, (get_queue_call o.1, o.2))
                      (good ++ [(t, Raises (PyError cls))]).
Proof.
  intros Houts Hgood.
  unfold GetQueue.callback, bind, with_locals, debug, log, get_locals, ret.
  simpl. rewrite async_exec_command_unfold.
  match goal with |- context [for_each ?es _ ?s] =>
    destruct (GetQueue_loop_breaks env es s good t cls rest Houts Hgood)
      as [Hout Hh];
    destruct (for_each es (exec_entity (GetQueue.handler env)) s)
      as [o st1] eqn:E
  end.
  simpl in *. by subst o.
Qed.

Lemma get_queue_loses_partial_results_witness :
  (GetQueue.callback env_den_broken example_hass (all_three true) initial).1
  = Raise (PyError "OSError")
  ∧ length (history (GetQueue.callback env_den_broken example_hass
                       (all_three true) initial).2) = 2%nat.
Proof.
  destruct (get_queue_loses_partial_results env_den_broken example_hass
              (all_three true) initial
              [(("media_player.kitchen", 1, 0%nat),
                Returns {| result := true;
                           payload := PQueue [{| qid := 5 |}; {| qid := 6 |}] |})]
              ("media_player.den", 2, 0%nat) "OSError" [])
    as [Hout Hh].
  - vm_compute. reflexivity.
  - repeat constructor. simpl. discriminate.
  - split; [exact Hout|]. rewrite Hh. reflexivity.
Defined.
